(** * AdvancedDrawingCanvas: stroke capture, undo and rendering

    A shallow embedding of the React component [AdvancedDrawingCanvas]
    (components/AdvancedDrawingCanvas.tsx: stroke model, input handlers,
    undo/clear commands and the canvas compositor [redrawCanvas]) together
    with the properties stated about it.

    Modelling conventions.
    - A JavaScript [number] is an IEEE 754 binary64 value: Rocq's primitive
      [float], with the same subtraction, multiplication and division.
    - The component's [useState] cells form the record [State].  A handler
      created by [useCallback] reads the values of the render in which it
      was created (its closure) and only queues updates; the queue is
      applied when the handler has returned ([commit]).  Every dependency
      list of the source names all state the callback reads, so the closure
      of a handler is always the last committed state.
    - The [<canvas>] element behind [canvasRef] is one mutable object: its
      2D context state and its surface persist from one call to the next.
      The surface is kept as a display list: the paint operations applied
      since the last operation that overwrote every pixel.  Two equal
      display lists on canvases of the same size rasterise to the same
      pixels.
    - The context accepts every value assigned to it.  (A browser ignores a
      line width that is not positive and finite and a colour that does not
      parse; the data model excludes both.) *)

From Stdlib Require Import List String Ascii Bool Floats ZArith Lia.
Import ListNotations.

Set Warnings "-inexact-float".

Local Open Scope string_scope.
Local Open Scope list_scope.
Local Open Scope float_scope.

(** ** Numbers *)

Definition number : Type := float.

(** Identity of two numbers as values (the same sign, mantissa and
    exponent, or both NaN), decided on their decoded form. *)
Definition same_spec_float (a b : spec_float) : bool :=
  match a, b with
  | S754_zero s, S754_zero t => Bool.eqb s t
  | S754_infinity s, S754_infinity t => Bool.eqb s t
  | S754_nan, S754_nan => true
  | S754_finite s m e, S754_finite t n f =>
      Bool.eqb s t && Pos.eqb m n && Z.eqb e f
  | _, _ => false
  end.

Definition same_number (a b : number) : bool :=
  same_spec_float (Prim2SF a) (Prim2SF b).

(** ** Data model (interfaces [Point] and [Stroke]) *)

Record Point : Type := mkPoint { x : number; y : number }.

Inductive Tool : Type := pen | brush | marker | eraser.

Definition Tool_eqb (a b : Tool) : bool :=
  match a, b with
  | pen, pen | brush, brush | marker, marker | eraser, eraser => true
  | _, _ => false
  end.

Record Stroke : Type := mkStroke {
  points : list Point;
  color : string;
  width : number;
  tool : Tool
}.

(** ** The canvas element and its 2D context *)

Inductive PathSeg : Type :=
| MoveTo (px py : number)
| LineTo (px py : number).

Record Context2D : Type := mkContext2D {
  fillStyle : string;
  strokeStyle : string;
  lineWidth : number;
  lineCap : string;
  lineJoin : string;
  globalAlpha : number;
  globalCompositeOperation : string;
  path : list PathSeg
}.

(** One paint operation as it reaches the surface: the geometry and the
    context attributes in force when [fillRect] or [stroke] was called. *)
Inductive Paint : Type :=
| FillRect (style : string) (alpha : number) (op : string)
           (rx ry rw rh : number)
| StrokePath (segs : list PathSeg) (style : string) (lw : number)
             (cap join : string) (alpha : number) (op : string).

Record DOMRect : Type := mkDOMRect {
  left : number;
  top : number;
  rect_width : number;
  rect_height : number
}.

Record Canvas : Type := mkCanvas {
  canvas_width : number;
  canvas_height : number;
  bounding : DOMRect;
  ctx : Context2D;
  surface : list Paint
}.

(** The value of [canvas.toDataURL(type)]: an encoding of the pixels, which
    are determined by the size of the canvas and its display list. *)
Record DataURL : Type := mkDataURL {
  mime : string;
  image_width : number;
  image_height : number;
  pixels : list Paint
}.

(** A colour written [#RRGGBB] has no transparency. *)
Definition opaque_style (c : string) : bool :=
  match c with
  | String "#"%char rest => Nat.eqb (String.length rest) 6
  | _ => false
  end.

(** A paint operation that replaces every pixel of the canvas: an opaque
    fill of the whole surface, at full alpha, drawn over the destination. *)
Definition overwrites (cv : Canvas) (p : Paint) : bool :=
  match p with
  | FillRect style alpha op rx ry rw rh =>
      opaque_style style && same_number alpha 1
      && String.eqb op "source-over"
      && same_number rx 0 && same_number ry 0
      && same_number rw (canvas_width cv) && same_number rh (canvas_height cv)
  | StrokePath _ _ _ _ _ _ _ => false
  end.

Definition deposit (p : Paint) (cv : Canvas) : Canvas :=
  mkCanvas (canvas_width cv) (canvas_height cv) (bounding cv) (ctx cv)
           (if overwrites cv p then [p] else surface cv ++ [p]).

Definition with_ctx (f : Context2D -> Context2D) (cv : Canvas) : Canvas :=
  mkCanvas (canvas_width cv) (canvas_height cv) (bounding cv) (f (ctx cv))
           (surface cv).

Definition assign_fillStyle (v : string) (c : Context2D) : Context2D :=
  mkContext2D v (strokeStyle c) (lineWidth c) (lineCap c) (lineJoin c)
              (globalAlpha c) (globalCompositeOperation c) (path c).
Definition assign_strokeStyle (v : string) (c : Context2D) : Context2D :=
  mkContext2D (fillStyle c) v (lineWidth c) (lineCap c) (lineJoin c)
              (globalAlpha c) (globalCompositeOperation c) (path c).
Definition assign_lineWidth (v : number) (c : Context2D) : Context2D :=
  mkContext2D (fillStyle c) (strokeStyle c) v (lineCap c) (lineJoin c)
              (globalAlpha c) (globalCompositeOperation c) (path c).
Definition assign_lineCap (v : string) (c : Context2D) : Context2D :=
  mkContext2D (fillStyle c) (strokeStyle c) (lineWidth c) v (lineJoin c)
              (globalAlpha c) (globalCompositeOperation c) (path c).
Definition assign_lineJoin (v : string) (c : Context2D) : Context2D :=
  mkContext2D (fillStyle c) (strokeStyle c) (lineWidth c) (lineCap c) v
              (globalAlpha c) (globalCompositeOperation c) (path c).
Definition assign_globalAlpha (v : number) (c : Context2D) : Context2D :=
  mkContext2D (fillStyle c) (strokeStyle c) (lineWidth c) (lineCap c)
              (lineJoin c) v (globalCompositeOperation c) (path c).
Definition assign_globalCompositeOperation (v : string) (c : Context2D)
  : Context2D :=
  mkContext2D (fillStyle c) (strokeStyle c) (lineWidth c) (lineCap c)
              (lineJoin c) (globalAlpha c) v (path c).
Definition assign_path (v : list PathSeg) (c : Context2D) : Context2D :=
  mkContext2D (fillStyle c) (strokeStyle c) (lineWidth c) (lineCap c)
              (lineJoin c) (globalAlpha c) (globalCompositeOperation c) v.

(** The paint operations of the context. *)
Definition paint_fillRect (rx ry rw rh : number) (cv : Canvas) : Canvas :=
  let c := ctx cv in
  deposit (FillRect (fillStyle c) (globalAlpha c)
                    (globalCompositeOperation c) rx ry rw rh) cv.

Definition paint_stroke (cv : Canvas) : Canvas :=
  let c := ctx cv in
  deposit (StrokePath (path c) (strokeStyle c) (lineWidth c) (lineCap c)
                      (lineJoin c) (globalAlpha c)
                      (globalCompositeOperation c)) cv.

Definition encode (type : string) (cv : Canvas) : DataURL :=
  mkDataURL type (canvas_width cv) (canvas_height cv) (surface cv).

(** A context as [getContext('2d')] first returns it, and a canvas element
    of the given size that nothing has drawn on yet. *)
Definition default_context : Context2D :=
  mkContext2D "#000000" "#000000" 1 "butt" "miter" 1 "source-over" [].

Definition new_canvas (w h : number) (r : DOMRect) : Canvas :=
  mkCanvas w h r default_context [].

(** ** Component state and host callbacks *)

Record State : Type := mkState {
  isDrawing : bool;
  currentStroke : option Stroke;
  strokes : list Stroke;
  currentColor : string;
  currentWidth : number;
  currentTool : Tool;
  hasContent : bool
}.

(** The state of the first render: the arguments of the [useState] calls. *)
Definition initial_state : State :=
  mkState false None [] "#000000" 5 pen false.

(** A queued call of a state setter.  [setStrokes] is called both with a
    value and with a function of the previous value. *)
Inductive Update : Type :=
| SetIsDrawing (v : bool)
| SetCurrentStroke (v : option Stroke)
| SetStrokes (v : list Stroke)
| UpdateStrokes (f : list Stroke -> list Stroke)
| SetHasContent (v : bool).

Definition apply_update (r : State) (u : Update) : State :=
  match u with
  | SetIsDrawing v =>
      mkState v (currentStroke r) (strokes r) (currentColor r)
              (currentWidth r) (currentTool r) (hasContent r)
  | SetCurrentStroke v =>
      mkState (isDrawing r) v (strokes r) (currentColor r)
              (currentWidth r) (currentTool r) (hasContent r)
  | SetStrokes v =>
      mkState (isDrawing r) (currentStroke r) v (currentColor r)
              (currentWidth r) (currentTool r) (hasContent r)
  | UpdateStrokes f =>
      mkState (isDrawing r) (currentStroke r) (f (strokes r)) (currentColor r)
              (currentWidth r) (currentTool r) (hasContent r)
  | SetHasContent v =>
      mkState (isDrawing r) (currentStroke r) (strokes r) (currentColor r)
              (currentWidth r) (currentTool r) v
  end.

Definition commit (q : list Update) (r : State) : State :=
  fold_left apply_update q r.

(** What the component passes to its two callback props. *)
Inductive Output : Type :=
| DrawingChange (hasContent : bool)
| ImageData (imageData : DataURL).

(** ** Handlers: queued updates, the canvas object, calls to the host *)

Record Env : Type := mkEnv {
  queue : list Update;
  canvasRef : option Canvas;
  sent : list Output
}.

Inductive JsError : Type := TypeError.

Inductive Outcome (A : Type) : Type :=
| Returns (a : A)
| Throws (e : JsError).
Arguments Returns {A} a.
Arguments Throws {A} e.

Definition Js (A : Type) : Type := Env -> Outcome A * Env.

Definition ret {A} (a : A) : Js A := fun w => (Returns a, w).

Definition throw {A} (e : JsError) : Js A := fun w => (Throws e, w).

Definition bind {A B} (m : Js A) (k : A -> Js B) : Js B :=
  fun w =>
    match m w with
    | (Returns a, w') => k a w'
    | (Throws e, w') => (Throws e, w')
    end.

Notation "v <- m ;; k" := (bind m (fun v => k))
  (at level 61, m at next level, right associativity).
Notation "m ;; k" := (bind m (fun _ => k))
  (at level 61, right associativity).

Fixpoint forEach {A} (l : list A) (body : A -> Js unit) : Js unit :=
  match l with
  | [] => ret tt
  | a :: rest => body a ;; forEach rest body
  end.

Definition enqueue (u : Update) : Js unit :=
  fun w => (Returns tt, mkEnv (queue w ++ [u]) (canvasRef w) (sent w)).

Definition setIsDrawing (v : bool) : Js unit := enqueue (SetIsDrawing v).
Definition setCurrentStroke (v : option Stroke) : Js unit :=
  enqueue (SetCurrentStroke v).
Definition setStrokes (v : list Stroke) : Js unit := enqueue (SetStrokes v).
Definition setStrokes_fn (f : list Stroke -> list Stroke) : Js unit :=
  enqueue (UpdateStrokes f).
Definition setHasContent (v : bool) : Js unit := enqueue (SetHasContent v).

Definition call_host (o : Output) : Js unit :=
  fun w => (Returns tt, mkEnv (queue w) (canvasRef w) (sent w ++ [o])).

Definition onDrawingChange (b : bool) : Js unit := call_host (DrawingChange b).
Definition onImageData (d : DataURL) : Js unit := call_host (ImageData d).

(** [canvasRef.current] *)
Definition canvasRef_current : Js (option Canvas) :=
  fun w => (Returns (canvasRef w), w).

(** Reading a property of, or calling a method on, the canvas object.  On
    [null] either one raises a TypeError. *)
Definition canvas_get {A} (f : Canvas -> A) : Js A :=
  fun w =>
    match canvasRef w with
    | Some cv => (Returns (f cv), w)
    | None => (Throws TypeError, w)
    end.

Definition canvas_do (f : Canvas -> Canvas) : Js unit :=
  fun w =>
    match canvasRef w with
    | Some cv => (Returns tt, mkEnv (queue w) (Some (f cv)) (sent w))
    | None => (Throws TypeError, w)
    end.

Definition getContext (kind : string) : Js (option Context2D) :=
  canvas_get (fun cv => Some (ctx cv)).
Definition getBoundingClientRect : Js DOMRect := canvas_get bounding.
Definition toDataURL (type : string) : Js DataURL := canvas_get (encode type).

Definition set_fillStyle (v : string) : Js unit :=
  canvas_do (with_ctx (assign_fillStyle v)).
Definition set_strokeStyle (v : string) : Js unit :=
  canvas_do (with_ctx (assign_strokeStyle v)).
Definition set_lineWidth (v : number) : Js unit :=
  canvas_do (with_ctx (assign_lineWidth v)).
Definition set_lineCap (v : string) : Js unit :=
  canvas_do (with_ctx (assign_lineCap v)).
Definition set_lineJoin (v : string) : Js unit :=
  canvas_do (with_ctx (assign_lineJoin v)).
Definition set_globalAlpha (v : number) : Js unit :=
  canvas_do (with_ctx (assign_globalAlpha v)).
Definition set_globalCompositeOperation (v : string) : Js unit :=
  canvas_do (with_ctx (assign_globalCompositeOperation v)).

Definition ctx_beginPath : Js unit :=
  canvas_do (with_ctx (assign_path [])).
Definition ctx_moveTo (px py : number) : Js unit :=
  canvas_do (with_ctx (fun c => assign_path (path c ++ [MoveTo px py]) c)).
Definition ctx_lineTo (px py : number) : Js unit :=
  canvas_do (with_ctx (fun c => assign_path (path c ++ [LineTo px py]) c)).
Definition ctx_stroke : Js unit := canvas_do paint_stroke.
Definition ctx_fillRect (rx ry rw rh : number) : Js unit :=
  canvas_do (paint_fillRect rx ry rw rh).

(** ** Events *)

Record MouseEvent : Type := mkMouseEvent {
  mouse_clientX : number;
  mouse_clientY : number
}.

Record Touch : Type := mkTouch {
  touch_clientX : number;
  touch_clientY : number
}.

Record TouchEvent : Type := mkTouchEvent { touches : list Touch }.

(** ** The callbacks of the component.  The argument [r] is the render
    whose values the callback closes over. *)

Definition getMousePos (e : MouseEvent) : Js Point :=
  canvas <- canvasRef_current ;;
  match canvas with
  | None => ret (mkPoint 0 0)
  | Some _ =>
      rect <- getBoundingClientRect ;;
      cw <- canvas_get canvas_width ;;
      ch <- canvas_get canvas_height ;;
      let scaleX := cw / rect_width rect in
      let scaleY := ch / rect_height rect in
      ret (mkPoint ((mouse_clientX e - left rect) * scaleX)
                   ((mouse_clientY e - top rect) * scaleY))
  end.

Definition getTouchPos (e : TouchEvent) : Js Point :=
  canvas <- canvasRef_current ;;
  match canvas with
  | None => ret (mkPoint 0 0)
  | Some _ =>
      rect <- getBoundingClientRect ;;
      cw <- canvas_get canvas_width ;;
      ch <- canvas_get canvas_height ;;
      let scaleX := cw / rect_width rect in
      let scaleY := ch / rect_height rect in
      (* [e.touches[0]] is [undefined] on an empty list, and reading
         [clientX] of it raises *)
      match nth_error (touches e) 0 with
      | None => throw TypeError
      | Some touch =>
          ret (mkPoint ((touch_clientX touch - left rect) * scaleX)
                       ((touch_clientY touch - top rect) * scaleY))
      end
  end.

Definition startDrawing (r : State) (point : Point) : Js unit :=
  setIsDrawing true ;;
  let newStroke :=
    mkStroke [point]
             (if Tool_eqb (currentTool r) eraser then "#FFFFFF"
              else currentColor r)
             (if Tool_eqb (currentTool r) eraser then currentWidth r * 2
              else currentWidth r)
             (currentTool r) in
  setCurrentStroke (Some newStroke).

Definition draw (r : State) (point : Point) : Js unit :=
  match isDrawing r, currentStroke r with
  | true, Some cs =>
      let updatedStroke :=
        mkStroke (points cs ++ [point]) (color cs) (width cs) (tool cs) in
      setCurrentStroke (Some updatedStroke)
  | _, _ => ret tt
  end.

Definition stopDrawing (r : State) : Js unit :=
  match isDrawing r, currentStroke r with
  | true, Some cs =>
      setStrokes_fn (fun prev => prev ++ [cs]) ;;
      setCurrentStroke None ;;
      setIsDrawing false ;;
      let hasDrawnContent :=
        (0 <? List.length (strokes r))%nat
        || (1 <? List.length (points cs))%nat in
      setHasContent hasDrawnContent ;;
      onDrawingChange hasDrawnContent
  | _, _ => ret tt
  end.

(** [ctx.moveTo] to [points[0]], then the loop [for (i = 1; ...)] of
    [ctx.lineTo]; the same text in both render paths.  Reading [x] of
    [points[0]] raises when the list is empty. *)
Definition trace_path (pts : list Point) : Js unit :=
  match pts with
  | [] => throw TypeError
  | p0 :: rest =>
      ctx_moveTo (x p0) (y p0) ;;
      forEach rest (fun p => ctx_lineTo (x p) (y p))
  end.

(** The arrow function passed to [strokes.forEach]. *)
Definition draw_logged_stroke (stroke : Stroke) : Js unit :=
  if (List.length (points stroke) <? 2)%nat then ret tt else
  ctx_beginPath ;;
  set_strokeStyle (color stroke) ;;
  set_lineWidth (width stroke) ;;
  set_lineCap "round" ;;
  set_lineJoin "round" ;;
  (* Apply tool-specific styling *)
  match tool stroke with
  | brush =>
      set_globalAlpha 0.7 ;;
      set_lineWidth (width stroke * 1.5)
  | marker =>
      set_globalAlpha 0.5 ;;
      set_lineWidth (width stroke * 2)
  | eraser =>
      set_globalCompositeOperation "destination-out"
  | pen =>
      set_globalAlpha 1.0 ;;
      set_globalCompositeOperation "source-over"
  end ;;
  trace_path (points stroke) ;;
  ctx_stroke ;;
  (* Reset composite operation *)
  set_globalCompositeOperation "source-over" ;;
  set_globalAlpha 1.0.

(** The block under [// Draw current stroke]. *)
Definition draw_current_stroke (currentStroke : option Stroke) : Js unit :=
  match currentStroke with
  | Some cs =>
      if (1 <? List.length (points cs))%nat then
        ctx_beginPath ;;
        set_strokeStyle (color cs) ;;
        set_lineWidth (width cs) ;;
        set_lineCap "round" ;;
        set_lineJoin "round" ;;
        match tool cs with
        | brush =>
            set_globalAlpha 0.7 ;;
            set_lineWidth (width cs * 1.5)
        | marker =>
            set_globalAlpha 0.5 ;;
            set_lineWidth (width cs * 2)
        | eraser =>
            set_globalCompositeOperation "destination-out"
        | pen => ret tt
        end ;;
        trace_path (points cs) ;;
        ctx_stroke ;;
        set_globalCompositeOperation "source-over" ;;
        set_globalAlpha 1.0
      else ret tt
  | None => ret tt
  end.

Definition redrawCanvas (r : State) : Js unit :=
  canvas <- canvasRef_current ;;
  match canvas with
  | None => ret tt
  | Some _ =>
    c <- getContext "2d" ;;
    match c with
    | None => ret tt
    | Some _ =>
      (* Clear canvas *)
      set_fillStyle "#FFFFFF" ;;
      cw <- canvas_get canvas_width ;;
      ch <- canvas_get canvas_height ;;
      ctx_fillRect 0 0 cw ch ;;
      (* Draw all strokes *)
      forEach (strokes r) draw_logged_stroke ;;
      (* Draw current stroke *)
      draw_current_stroke (currentStroke r) ;;
      (* Update image data *)
      imageData <- toDataURL "image/png" ;;
      onImageData imageData
    end
  end.

Definition clearCanvas : Js unit :=
  setStrokes [] ;;
  setCurrentStroke None ;;
  setHasContent false ;;
  onDrawingChange false ;;
  canvas <- canvasRef_current ;;
  match canvas with
  | None => ret tt
  | Some _ =>
      c <- getContext "2d" ;;
      match c with
      | None => ret tt
      | Some _ =>
          set_fillStyle "#FFFFFF" ;;
          cw <- canvas_get canvas_width ;;
          ch <- canvas_get canvas_height ;;
          ctx_fillRect 0 0 cw ch ;;
          imageData <- toDataURL "image/png" ;;
          onImageData imageData
      end
  end.

Definition undoLastStroke (r : State) : Js unit :=
  if (0 <? List.length (strokes r))%nat then
    setStrokes_fn (fun prev => removelast prev) ;;   (* prev.slice(0, -1) *)
    let newHasContent := (1 <? List.length (strokes r))%nat in
    setHasContent newHasContent ;;
    onDrawingChange newHasContent
  else ret tt.

(** Mouse and touch handlers ([e.preventDefault()] does not touch the
    component). *)
Definition handleMouseDown (r : State) (e : MouseEvent) : Js unit :=
  point <- getMousePos e ;; startDrawing r point.
Definition handleMouseMove (r : State) (e : MouseEvent) : Js unit :=
  point <- getMousePos e ;; draw r point.
Definition handleMouseUp (r : State) (e : MouseEvent) : Js unit :=
  stopDrawing r.
Definition handleTouchStart (r : State) (e : TouchEvent) : Js unit :=
  point <- getTouchPos e ;; startDrawing r point.
Definition handleTouchMove (r : State) (e : TouchEvent) : Js unit :=
  point <- getTouchPos e ;; draw r point.
Definition handleTouchEnd (r : State) (e : TouchEvent) : Js unit :=
  stopDrawing r.

(** ** The component as a transition system *)

(** The props wired in the JSX: the six canvas listeners, [onMouseLeave]
    bound to [stopDrawing], and the Clear and Undo buttons. *)
Inductive Event : Type :=
| MouseDown (e : MouseEvent)
| MouseMove (e : MouseEvent)
| MouseUp (e : MouseEvent)
| MouseLeave
| TouchStart (e : TouchEvent)
| TouchMove (e : TouchEvent)
| TouchEnd (e : TouchEvent)
| ClickClear
| ClickUndo.

Definition handler (r : State) (ev : Event) : Js unit :=
  match ev with
  | MouseDown e => handleMouseDown r e
  | MouseMove e => handleMouseMove r e
  | MouseUp e => handleMouseUp r e
  | MouseLeave => stopDrawing r
  | TouchStart e => handleTouchStart r e
  | TouchMove e => handleTouchMove r e
  | TouchEnd e => handleTouchEnd r e
  | ClickClear => clearCanvas
  | ClickUndo => undoLastStroke r
  end.

Record Session : Type := mkSession {
  session_state : State;
  session_canvas : option Canvas
}.

(** [useEffect(() => redrawCanvas(), [redrawCanvas])]: [redrawCanvas] is
    re-created, and the effect runs, when [strokes] or [currentStroke] is a
    new value.  Every array or stroke object the setters receive is freshly
    built; only [setCurrentStroke(null)] over [null] changes nothing. *)
Definition redraw_due (r : State) (q : list Update) : bool :=
  existsb (fun u =>
             match u with
             | SetStrokes _ | UpdateStrokes _ => true
             | SetCurrentStroke (Some _) => true
             | SetCurrentStroke None =>
                 match currentStroke r with Some _ => true | None => false end
             | SetIsDrawing _ | SetHasContent _ => false
             end) q.

Definition thrown {A} (o : Outcome A) : option JsError :=
  match o with Returns _ => None | Throws e => Some e end.

Record Step : Type := mkStep {
  after : Session;
  outputs : list Output;
  error : option JsError
}.

(** One event: the handler runs on the closure of the current render, the
    queued updates are committed, and the effect redraws if it is due. *)
Definition dispatch (s : Session) (ev : Event) : Step :=
  let r := session_state s in
  let h := handler r ev (mkEnv [] (session_canvas s) []) in
  let r' := commit (queue (snd h)) r in
  let eff :=
    (if redraw_due r (queue (snd h)) then redrawCanvas r' else ret tt)
      (mkEnv [] (canvasRef (snd h)) (sent (snd h))) in
  mkStep (mkSession r' (canvasRef (snd eff))) (sent (snd eff))
         (match thrown (fst h) with
          | Some e => Some e
          | None => thrown (fst eff)
          end).

(** Mounting: the first render with a fresh canvas behind the ref; the
    effect runs once. *)
Definition mount (w h : number) (rect : DOMRect) : Step :=
  let eff :=
    redrawCanvas initial_state (mkEnv [] (Some (new_canvas w h rect)) []) in
  mkStep (mkSession initial_state (canvasRef (snd eff))) (sent (snd eff))
         (thrown (fst eff)).

Fixpoint run (s : Session) (evs : list Event) : Session * list Output :=
  match evs with
  | [] => (s, [])
  | ev :: rest =>
      let st := dispatch s ev in
      let tl := run (after st) rest in
      (fst tl, outputs st ++ snd tl)
  end.

Inductive reachable (w h : number) (rect : DOMRect) : Session -> Prop :=
| reach_mount : reachable w h rect (after (mount w h rect))
| reach_step : forall s ev,
    reachable w h rect s -> reachable w h rect (after (dispatch s ev)).

(** The last value passed to [onDrawingChange], and the last image passed
    to [onImageData], among some outputs. *)
Definition delivered_presence (os : list Output) : option bool :=
  fold_left (fun acc o =>
               match o with DrawingChange b => Some b | ImageData _ => acc end)
            os None.

Definition delivered_image (os : list Output) : option DataURL :=
  fold_left (fun acc o =>
               match o with ImageData d => Some d | DrawingChange _ => acc end)
            os None.

(** ** The compositor as a table

    The per-tool rules of the render pass written as functions of the
    stroke, and the display list a pass is expected to leave. *)

Definition stroke_lineWidth (s : Stroke) : number :=
  match tool s with
  | pen => width s
  | brush => width s * 1.5
  | marker => width s * 2
  | eraser => width s
  end.

Definition tool_alpha (t : Tool) : number :=
  match t with
  | pen => 1
  | brush => 0.7
  | marker => 0.5
  | eraser => 1
  end.

Definition tool_blend (t : Tool) : string :=
  match t with
  | eraser => "destination-out"
  | pen | brush | marker => "source-over"
  end.

Definition segments (pts : list Point) : list PathSeg :=
  match pts with
  | [] => []
  | p0 :: rest =>
      MoveTo (x p0) (y p0) :: map (fun p => LineTo (x p) (y p)) rest
  end.

Definition stroke_paint (s : Stroke) : Paint :=
  StrokePath (segments (points s)) (color s) (stroke_lineWidth s)
             "round" "round" (tool_alpha (tool s)) (tool_blend (tool s)).

Definition drawable (s : Stroke) : bool :=
  (1 <? List.length (points s))%nat.

Definition background (w h : number) : Paint :=
  FillRect "#FFFFFF" 1 "source-over" 0 0 w h.

Definition active_layer (a : option Stroke) : list Stroke :=
  match a with Some cs => [cs] | None => [] end.

Definition rendering (w h : number) (log : list Stroke) (a : option Stroke)
  : list Paint :=
  background w h :: map stroke_paint (filter drawable (log ++ active_layer a)).

(** The context attributes that a render pass relies on finding reset. *)
Definition neutral (c : Context2D) : Prop :=
  globalAlpha c = 1 /\ globalCompositeOperation c = "source-over".

(** Content-presence as the specification words it: the log is non-empty or
    the active stroke has more than one point. *)
Definition content_presence (r : State) : bool :=
  negb (Nat.eqb (List.length (strokes r)) 0)
  || match currentStroke r with
     | Some cs => (1 <? List.length (points cs))%nat
     | None => false
     end.

(** The context a drawn stroke leaves behind, and the context at the end of
    a render pass that started from [c]. *)
Definition painted_ctx (c : Context2D) (s : Stroke) : Context2D :=
  mkContext2D (fillStyle c) (color s) (stroke_lineWidth s) "round" "round"
              1 "source-over" (segments (points s)).

Definition step_ctx (c : Context2D) (s : Stroke) : Context2D :=
  if drawable s then painted_ctx c s else c.

Definition pass_ctx (c : Context2D) (r : State) : Context2D :=
  fold_left step_ctx (strokes r ++ active_layer (currentStroke r))
            (assign_fillStyle "#FFFFFF" c).

(** A session whose canvas is mounted with the given size and layout, has
    a neutral context, and shows the rendering of the current stroke log
    and active stroke. *)
Definition settled (w h : number) (rect : DOMRect) (s : Session) : Prop :=
  exists c,
    session_canvas s
    = Some (mkCanvas w h rect c
              (rendering w h (strokes (session_state s))
                         (currentStroke (session_state s))))
    /\ neutral c.

(** The queue a completed stroke leaves, and the one an undo leaves. *)
Definition stop_queue (r : State) (cs : Stroke) : list Update :=
  [UpdateStrokes (fun prev => prev ++ [cs]);
   SetCurrentStroke None;
   SetIsDrawing false;
   SetHasContent ((0 <? List.length (strokes r))%nat
                  || (1 <? List.length (points cs))%nat)].

Definition undo_queue (r : State) : list Update :=
  [UpdateStrokes (fun prev => removelast prev);
   SetHasContent (1 <? List.length (strokes r))%nat].

(** The point the two coordinate mappers compute on a mounted canvas. *)
Definition mapped (cv : Canvas) (clientX clientY : number) : Point :=
  mkPoint ((clientX - left (bounding cv))
           * (canvas_width cv / rect_width (bounding cv)))
          ((clientY - top (bounding cv))
           * (canvas_height cv / rect_height (bounding cv))).

(** The stroke [startDrawing] creates. *)
Definition new_stroke (r : State) (point : Point) : Stroke :=
  mkStroke [point]
           (if Tool_eqb (currentTool r) eraser then "#FFFFFF"
            else currentColor r)
           (if Tool_eqb (currentTool r) eraser then currentWidth r * 2
            else currentWidth r)
           (currentTool r).

(** The events bound to [stopDrawing]. *)
Definition releases (ev : Event) : bool :=
  match ev with
  | MouseUp _ | MouseLeave | TouchEnd _ => true
  | _ => false
  end.

(** The committed state after each kind of transition. *)
Definition started_state (r : State) (p : Point) : State :=
  mkState true (Some (new_stroke r p)) (strokes r) (currentColor r)
          (currentWidth r) (currentTool r) (hasContent r).

Definition extended_state (r : State) (cs : Stroke) (p : Point) : State :=
  mkState (isDrawing r)
          (Some (mkStroke (points cs ++ [p]) (color cs) (width cs) (tool cs)))
          (strokes r) (currentColor r) (currentWidth r) (currentTool r)
          (hasContent r).

Definition completed_state (r : State) (cs : Stroke) : State :=
  mkState false None (strokes r ++ [cs]) (currentColor r) (currentWidth r)
          (currentTool r)
          ((0 <? List.length (strokes r))%nat
           || (1 <? List.length (points cs))%nat).

Definition undone_state (r : State) : State :=
  mkState (isDrawing r) (currentStroke r) (removelast (strokes r))
          (currentColor r) (currentWidth r) (currentTool r)
          (1 <? List.length (strokes r))%nat.

Definition cleared_state (r : State) : State :=
  mkState (isDrawing r) None [] (currentColor r) (currentWidth r)
          (currentTool r) false.

(** The image a render pass exports for a log and an active stroke. *)
Definition image (w h : number) (log : list Stroke) (a : option Stroke)
  : DataURL :=
  mkDataURL "image/png" w h (rendering w h log a).

(** The session a redraw leaves for a committed state. *)
Definition redrawn (w h : number) (rect : DOMRect) (c : Context2D) (r : State)
  : Session :=
  mkSession r (Some (mkCanvas w h rect (pass_ctx c r)
                              (rendering w h (strokes r) (currentStroke r)))).

(** ** Sample sessions

    An 800 by 600 canvas displayed at half size with its corner at
    (10, 20), and a few sessions on it: freshly mounted; after a press at
    canvas point (100, 100); after dragging to (700, 100); after releasing;
    and after pressing again. *)
Definition sample_rect : DOMRect := mkDOMRect 10 20 400 300.

Definition blank_session : Session := after (mount 800 600 sample_rect).

Definition pressed_session : Session :=
  after (dispatch blank_session (MouseDown (mkMouseEvent 60 70))).

Definition dragging_session : Session :=
  after (dispatch pressed_session (MouseMove (mkMouseEvent 360 70))).

Definition one_stroke_session : Session :=
  after (dispatch dragging_session (MouseUp (mkMouseEvent 360 70))).

Definition pressed_again_session : Session :=
  after (dispatch one_stroke_session (MouseDown (mkMouseEvent 60 120))).

(** The context of a session's canvas (the default one when unmounted). *)
Definition session_ctx (s : Session) : Context2D :=
  match session_canvas s with
  | Some cv => ctx cv
  | None => default_context
  end.

Definition sample_brush_stroke : Stroke :=
  mkStroke [mkPoint 100 100; mkPoint 700 100] "#FF0000" 5 brush.

Definition sample_dot : Stroke :=
  mkStroke [mkPoint 100 100] "#FF0000" 5 pen.

Definition sample_env : Env :=
  mkEnv [] (Some (new_canvas 800 600 sample_rect)) [].

(** A canvas that earlier passes have drawn on: the same element as
    [new_canvas] with another layout, other context attributes left by a
    marker stroke, and that stroke on its surface. *)
Definition used_canvas : Canvas :=
  mkCanvas 800 600 (mkDOMRect 0 0 800 600)
           (mkContext2D "#FFFFFF" "#00FF00" 16 "round" "round" 1 "source-over"
                        [MoveTo 0 0; LineTo 5 5])
           [background 800 600;
            StrokePath [MoveTo 0 0; LineTo 5 5] "#00FF00" 16 "round" "round"
                       0.5 "source-over"].

Definition sample_state : State :=
  mkState false None [sample_dot; sample_brush_stroke] "#000000" 5 pen true.

(** The same log and active stroke as [sample_state] under another
    configuration and another drawing flag. *)
Definition sample_state_erasing : State :=
  mkState true None [sample_dot; sample_brush_stroke] "#123456" 9 eraser
          false.

(** One stroke drawn with the mouse: a press, some moves, a release. *)
Definition gesture (down : MouseEvent) (moves : list MouseEvent)
           (up : MouseEvent) : list Event :=
  MouseDown down :: map MouseMove moves ++ [MouseUp up].

(** The canvas point of a mouse event on a canvas of backing size [w] by
    [h] laid out at [rect]. *)
Definition mouse_point (w h : number) (rect : DOMRect) (e : MouseEvent)
  : Point :=
  mkPoint ((mouse_clientX e - left rect) * (w / rect_width rect))
          ((mouse_clientY e - top rect) * (h / rect_height rect)).

(** ** The state transition of one event

    The committed state after an event, as a function of the state before,
    of the canvas behind the ref (which only decides the mapped point) and
    of the event. *)
Definition mouse_target (cvo : option Canvas) (e : MouseEvent) : Point :=
  match cvo with
  | Some cv => mapped cv (mouse_clientX e) (mouse_clientY e)
  | None => mkPoint 0 0
  end.

(** [None] when the touch mapper raises. *)
Definition touch_target (cvo : option Canvas) (e : TouchEvent)
  : option Point :=
  match cvo, touches e with
  | None, _ => Some (mkPoint 0 0)
  | Some cv, [] => None
  | Some cv, t :: _ => Some (mapped cv (touch_clientX t) (touch_clientY t))
  end.

Definition draw_step (r : State) (p : Point) : State :=
  match isDrawing r, currentStroke r with
  | true, Some cs => extended_state r cs p
  | _, _ => r
  end.

Definition stop_step (r : State) : State :=
  match isDrawing r, currentStroke r with
  | true, Some cs => completed_state r cs
  | _, _ => r
  end.

Definition undo_step (r : State) : State :=
  match strokes r with
  | [] => r
  | _ :: _ => undone_state r
  end.

Definition step_state (r : State) (cvo : option Canvas) (ev : Event) : State :=
  match ev with
  | MouseDown e => started_state r (mouse_target cvo e)
  | MouseMove e => draw_step r (mouse_target cvo e)
  | MouseUp _ | MouseLeave | TouchEnd _ => stop_step r
  | TouchStart e =>
      match touch_target cvo e with
      | Some p => started_state r p
      | None => r
      end
  | TouchMove e =>
      match touch_target cvo e with
      | Some p => draw_step r p
      | None => r
      end
  | ClickClear => cleared_state r
  | ClickUndo => undo_step r
  end.

(** The strokes a state holds: the log and the active stroke. *)
Definition held_strokes (r : State) : list Stroke :=
  strokes r ++ active_layer (currentStroke r).

(** Events that neither start a stroke nor issue a command: moves and
    releases. *)
Definition passive (ev : Event) : bool :=
  match ev with
  | MouseMove _ | MouseUp _ | MouseLeave | TouchMove _ | TouchEnd _ => true
  | MouseDown _ | TouchStart _ | ClickClear | ClickUndo => false
  end.

(** A touch-start or touch-move event whose touch list is empty. *)
Definition reads_missing_touch (ev : Event) : bool :=
  match ev with
  | TouchStart e | TouchMove e =>
      match touches e with [] => true | _ :: _ => false end
  | _ => false
  end.

(** The mouse event at the position of a touch. *)
Definition mouse_of_touch (t : Touch) : MouseEvent :=
  mkMouseEvent (touch_clientX t) (touch_clientY t).

(** ** Proof tools *)

Arguments same_number : simpl never.

(** Normalises the record updates of the context, innermost first. *)
Ltac ctx_norm :=
  cbv [with_ctx assign_fillStyle assign_strokeStyle assign_lineWidth
       assign_lineCap assign_lineJoin assign_globalAlpha
       assign_globalCompositeOperation assign_path
       canvas_width canvas_height bounding ctx surface
       fillStyle strokeStyle lineWidth lineCap lineJoin globalAlpha
       globalCompositeOperation path].

(** Proves [settled] for a closed session by evaluating it. *)
Ltac settled_by_evaluation s :=
  exists (session_ctx s);
  split; [vm_compute; reflexivity | split; vm_compute; reflexivity].

(** * Properties *)

(** ** Numbers *)

Lemma same_spec_float_refl (a : spec_float) : same_spec_float a a = true.
Proof.
  destruct a as [s|s| |s m e]; cbn.
  - apply eqb_reflx.
  - apply eqb_reflx.
  - reflexivity.
  - now rewrite eqb_reflx, Pos.eqb_refl, Z.eqb_refl.
Qed.

Lemma same_number_refl (a : number) : same_number a a = true.
Proof. apply same_spec_float_refl. Qed.

(** ** The canvas object *)

Lemma overwrites_background (cv : Canvas) :
  overwrites cv (background (canvas_width cv) (canvas_height cv)) = true.
Proof.
  unfold overwrites, background.
  now rewrite !same_number_refl.
Qed.

Lemma overwrites_fill w h b c sf :
  overwrites (mkCanvas w h b c sf) (FillRect "#FFFFFF" 1 "source-over" 0 0 w h)
  = true.
Proof. apply (overwrites_background (mkCanvas w h b c sf)). Qed.

Lemma forEach_lineTo (rest : list Point) :
  forall q w h b c sf o,
    forEach rest (fun p => ctx_lineTo (x p) (y p))
            (mkEnv q (Some (mkCanvas w h b c sf)) o)
    = (Returns tt,
       mkEnv q (Some (mkCanvas w h b
                        (assign_path
                           (path c ++ map (fun p => LineTo (x p) (y p)) rest)
                           c) sf)) o).
Proof.
  induction rest as [|p rest IH]; intros q w h b c sf o.
  - cbn. rewrite app_nil_r. now destruct c.
  - cbn [forEach]. unfold bind at 1. cbn [ctx_lineTo canvas_do canvasRef queue sent].
    unfold with_ctx; cbn [canvas_width canvas_height bounding ctx surface].
    rewrite IH. cbn [map path assign_path].
    rewrite <- app_assoc. reflexivity.
Qed.

Lemma trace_path_runs (p0 : Point) (rest : list Point) :
  forall q w h b c sf o,
    trace_path (p0 :: rest) (mkEnv q (Some (mkCanvas w h b c sf)) o)
    = (Returns tt,
       mkEnv q (Some (mkCanvas w h b
                        (assign_path (path c ++ segments (p0 :: rest)) c)
                        sf)) o).
Proof.
  intros. cbn [trace_path]. unfold bind at 1.
  cbn [ctx_moveTo canvas_do canvasRef queue sent].
  unfold with_ctx; cbn [canvas_width canvas_height bounding ctx surface].
  rewrite forEach_lineTo. cbn [path assign_path segments].
  rewrite <- app_assoc. reflexivity.
Qed.

Lemma drawable_points (s : Stroke) :
  drawable s = true ->
  exists p0 p1 rest, points s = p0 :: p1 :: rest.
Proof.
  unfold drawable. destruct (points s) as [|p0 [|p1 rest]]; cbn; try discriminate.
  intros _. now exists p0, p1, rest.
Qed.

Lemma draw_logged_stroke_paints (s : Stroke) q w h b c sf o :
  drawable s = true -> neutral c ->
  draw_logged_stroke s (mkEnv q (Some (mkCanvas w h b c sf)) o)
  = (Returns tt,
     mkEnv q (Some (mkCanvas w h b (painted_ctx c s) (sf ++ [stroke_paint s])))
           o).
Proof.
  intros Hd [Ha Hg].
  destruct (drawable_points s Hd) as (p0 & p1 & rest & Hp).
  destruct s as [pts col wd tl]; cbn in Hp; subst pts.
  destruct c as [fs ss lw lc lj ga gco pa]; cbn in Ha, Hg; subst ga gco.
  unfold draw_logged_stroke, stroke_paint, painted_ctx, stroke_lineWidth.
  cbn [points color width tool List.length Nat.ltb Nat.leb].
  destruct tl; cbn -[trace_path segments]; ctx_norm;
    unfold bind at 1; rewrite trace_path_runs; reflexivity.
Qed.

Lemma draw_logged_stroke_skips (s : Stroke) (w : Env) :
  drawable s = false -> draw_logged_stroke s w = (Returns tt, w).
Proof.
  unfold drawable, draw_logged_stroke.
  destruct (points s) as [|p0 [|p1 rest]]; cbn; try discriminate; reflexivity.
Qed.

Lemma draw_current_stroke_paints (s : Stroke) q w h b c sf o :
  drawable s = true -> neutral c ->
  draw_current_stroke (Some s) (mkEnv q (Some (mkCanvas w h b c sf)) o)
  = (Returns tt,
     mkEnv q (Some (mkCanvas w h b (painted_ctx c s) (sf ++ [stroke_paint s])))
           o).
Proof.
  intros Hd [Ha Hg].
  destruct (drawable_points s Hd) as (p0 & p1 & rest & Hp).
  destruct s as [pts col wd tl]; cbn in Hp; subst pts.
  destruct c as [fs ss lw lc lj ga gco pa]; cbn in Ha, Hg; subst ga gco.
  unfold draw_current_stroke, stroke_paint, painted_ctx, stroke_lineWidth.
  cbn [points color width tool List.length Nat.ltb Nat.leb].
  destruct tl; cbn -[trace_path segments]; ctx_norm;
    unfold bind at 1; rewrite trace_path_runs; reflexivity.
Qed.

Lemma step_ctx_neutral (c : Context2D) (s : Stroke) :
  neutral c -> neutral (step_ctx c s).
Proof.
  unfold step_ctx. destruct (drawable s); [|trivial].
  intros _. split; reflexivity.
Qed.

Lemma fold_step_ctx_neutral (l : list Stroke) :
  forall c, neutral c -> neutral (fold_left step_ctx l c).
Proof.
  induction l as [|s l IH]; intros c Hc; cbn; [trivial|].
  apply IH, step_ctx_neutral, Hc.
Qed.

Lemma pass_ctx_neutral (c : Context2D) (r : State) :
  neutral c -> neutral (pass_ctx c r).
Proof.
  intros [Ha Hg]. apply fold_step_ctx_neutral.
  destruct c; split; assumption.
Qed.

Lemma forEach_draw_logged (l : list Stroke) :
  forall q w h b c sf o,
    neutral c ->
    forEach l draw_logged_stroke (mkEnv q (Some (mkCanvas w h b c sf)) o)
    = (Returns tt,
       mkEnv q (Some (mkCanvas w h b (fold_left step_ctx l c)
                               (sf ++ map stroke_paint (filter drawable l))))
             o).
Proof.
  induction l as [|s l IH]; intros q w h b c sf o Hc.
  - cbn. now rewrite app_nil_r.
  - cbn [forEach fold_left filter]. unfold bind at 1, step_ctx at 2.
    destruct (drawable s) eqn:Hd.
    + rewrite draw_logged_stroke_paints by assumption.
      rewrite IH by (split; reflexivity).
      cbn [map]. now rewrite <- app_assoc.
    + rewrite draw_logged_stroke_skips by assumption.
      now rewrite IH.
Qed.

Lemma draw_current_stroke_runs (a : option Stroke) q w h b c sf o :
  neutral c ->
  draw_current_stroke a (mkEnv q (Some (mkCanvas w h b c sf)) o)
  = (Returns tt,
     mkEnv q (Some (mkCanvas w h b (fold_left step_ctx (active_layer a) c)
                             (sf ++ map stroke_paint
                                        (filter drawable (active_layer a)))))
           o).
Proof.
  intros Hc. destruct a as [cs|]; cbn [active_layer fold_left filter].
  - unfold step_ctx. destruct (drawable cs) eqn:Hd.
    + now rewrite draw_current_stroke_paints.
    + cbn [map]. rewrite app_nil_r. unfold draw_current_stroke.
      unfold drawable in Hd. now rewrite Hd.
  - cbn. now rewrite app_nil_r.
Qed.

(** A render pass on a mounted canvas whose context is neutral returns
    normally, leaves exactly [rendering] on the surface whatever was there
    before, and sends its encoding to the host. *)
Lemma redrawCanvas_runs (r : State) q w h b c sf o :
  neutral c ->
  redrawCanvas r (mkEnv q (Some (mkCanvas w h b c sf)) o)
  = (Returns tt,
     mkEnv q
           (Some (mkCanvas w h b (pass_ctx c r)
                           (rendering w h (strokes r) (currentStroke r))))
           (o ++ [ImageData
                    (mkDataURL "image/png" w h
                               (rendering w h (strokes r) (currentStroke r)))])).
Proof.
  intros [Ha Hg].
  destruct c as [fs ss lw lc lj ga gco pa]; cbn in Ha, Hg; subst ga gco.
  unfold redrawCanvas.
  unfold bind at 1; cbn [canvasRef_current canvasRef].
  unfold bind at 1; cbn [getContext canvas_get canvasRef].
  unfold bind at 1; cbn [set_fillStyle canvas_do canvasRef queue sent].
  unfold bind at 1; cbn [canvas_get canvasRef].
  unfold bind at 1; cbn [canvas_get canvasRef].
  unfold bind at 1; cbn [ctx_fillRect canvas_do canvasRef queue sent].
  unfold paint_fillRect, deposit. ctx_norm. rewrite overwrites_fill.
  unfold bind at 1. rewrite forEach_draw_logged by (split; reflexivity).
  unfold bind at 1. rewrite draw_current_stroke_runs
    by (apply fold_step_ctx_neutral; split; reflexivity).
  unfold bind at 1; cbn [toDataURL canvas_get canvasRef encode
                         canvas_width canvas_height surface].
  unfold onImageData, call_host; cbn [queue canvasRef sent].
  unfold pass_ctx, rendering, background, assign_fillStyle.
  cbn [fillStyle strokeStyle lineWidth lineCap lineJoin globalAlpha
       globalCompositeOperation path].
  rewrite fold_left_app, filter_app, map_app.
  reflexivity.
Qed.

(** ** Handlers *)

Lemma bind_returns {A B} (m : Js A) (k : A -> Js B) (w w' : Env) (a : A) :
  m w = (Returns a, w') -> bind m k w = k a w'.
Proof. intros H. unfold bind. now rewrite H. Qed.

Lemma getMousePos_runs (e : MouseEvent) (w : Env) :
  getMousePos e w
  = (Returns match canvasRef w with
             | Some cv => mapped cv (mouse_clientX e) (mouse_clientY e)
             | None => mkPoint 0 0
             end, w).
Proof.
  destruct w as [q [cv|] o]; reflexivity.
Qed.

Lemma getTouchPos_runs (e : TouchEvent) (w : Env) :
  getTouchPos e w
  = (match canvasRef w, touches e with
     | None, _ => Returns (mkPoint 0 0)
     | Some cv, [] => Throws TypeError
     | Some cv, t :: _ => Returns (mapped cv (touch_clientX t) (touch_clientY t))
     end, w).
Proof.
  destruct w as [q [cv|] o]; [|reflexivity].
  destruct e as [[|t ts]]; reflexivity.
Qed.

Lemma startDrawing_runs (r : State) (p : Point) (w : Env) :
  startDrawing r p w
  = (Returns tt,
     mkEnv (queue w ++ [SetIsDrawing true; SetCurrentStroke (Some (new_stroke r p))])
           (canvasRef w) (sent w)).
Proof.
  unfold startDrawing, bind, setIsDrawing, setCurrentStroke, enqueue.
  cbn [queue canvasRef sent]. now rewrite <- app_assoc.
Qed.

Lemma stopDrawing_runs (r : State) (cs : Stroke) (w : Env) :
  isDrawing r = true -> currentStroke r = Some cs ->
  stopDrawing r w
  = (Returns tt,
     mkEnv (queue w ++ stop_queue r cs) (canvasRef w)
           (sent w ++ [DrawingChange ((0 <? List.length (strokes r))%nat
                                      || (1 <? List.length (points cs))%nat)])).
Proof.
  intros Hd Hc. unfold stopDrawing. rewrite Hd, Hc.
  unfold bind, setStrokes_fn, setIsDrawing, setCurrentStroke, setHasContent,
    onDrawingChange, call_host, enqueue, stop_queue.
  cbn [queue canvasRef sent]. now rewrite <- !app_assoc.
Qed.

Lemma stopDrawing_idle (r : State) (w : Env) :
  isDrawing r = false \/ currentStroke r = None ->
  stopDrawing r w = (Returns tt, w).
Proof.
  unfold stopDrawing.
  intros [H|H]; rewrite H; [reflexivity|now destruct (isDrawing r)].
Qed.

Lemma undoLastStroke_runs (r : State) (w : Env) :
  strokes r <> [] ->
  undoLastStroke r w
  = (Returns tt,
     mkEnv (queue w ++ undo_queue r) (canvasRef w)
           (sent w ++ [DrawingChange (1 <? List.length (strokes r))%nat])).
Proof.
  intros Hne. unfold undoLastStroke.
  destruct (strokes r) as [|s l] eqn:Hs; [congruence|].
  cbn [List.length Nat.ltb Nat.leb].
  unfold bind, setStrokes_fn, setHasContent, onDrawingChange, call_host,
    enqueue, undo_queue.
  cbn [queue canvasRef sent]. rewrite Hs. cbn [List.length].
  now rewrite <- !app_assoc.
Qed.

Lemma undoLastStroke_empty (r : State) (w : Env) :
  strokes r = [] -> undoLastStroke r w = (Returns tt, w).
Proof. intros H. unfold undoLastStroke. now rewrite H. Qed.

Lemma draw_runs (r : State) (cs : Stroke) (p : Point) (w : Env) :
  isDrawing r = true -> currentStroke r = Some cs ->
  draw r p w
  = (Returns tt,
     mkEnv (queue w ++ [SetCurrentStroke
                          (Some (mkStroke (points cs ++ [p]) (color cs)
                                          (width cs) (tool cs)))])
           (canvasRef w) (sent w)).
Proof. intros Hd Hc. unfold draw. now rewrite Hd, Hc. Qed.

Lemma draw_idle (r : State) (p : Point) (w : Env) :
  isDrawing r = false \/ currentStroke r = None ->
  draw r p w = (Returns tt, w).
Proof.
  unfold draw.
  intros [H|H]; rewrite H; [reflexivity|now destruct (isDrawing r)].
Qed.

Lemma clearCanvas_runs q w h b c sf o :
  neutral c ->
  clearCanvas (mkEnv q (Some (mkCanvas w h b c sf)) o)
  = (Returns tt,
     mkEnv (q ++ [SetStrokes []; SetCurrentStroke None; SetHasContent false])
           (Some (mkCanvas w h b (assign_fillStyle "#FFFFFF" c)
                           [background w h]))
           (o ++ [DrawingChange false;
                  ImageData (mkDataURL "image/png" w h [background w h])])).
Proof.
  intros [Ha Hg].
  destruct c as [fs ss lw lc lj ga gco pa]; cbn in Ha, Hg; subst ga gco.
  unfold clearCanvas.
  unfold bind at 1; cbn [setStrokes enqueue queue canvasRef sent].
  unfold bind at 1; cbn [setCurrentStroke enqueue queue canvasRef sent].
  unfold bind at 1; cbn [setHasContent enqueue queue canvasRef sent].
  unfold bind at 1; cbn [onDrawingChange call_host queue canvasRef sent].
  unfold bind at 1; cbn [canvasRef_current canvasRef].
  unfold bind at 1; cbn [getContext canvas_get canvasRef].
  unfold bind at 1; cbn [set_fillStyle canvas_do canvasRef queue sent].
  unfold bind at 1; cbn [canvas_get canvasRef].
  unfold bind at 1; cbn [canvas_get canvasRef].
  unfold bind at 1; cbn [ctx_fillRect canvas_do canvasRef queue sent].
  unfold paint_fillRect, deposit. ctx_norm. rewrite overwrites_fill.
  unfold bind at 1; cbn [toDataURL canvas_get canvasRef encode
                         canvas_width canvas_height surface].
  unfold onImageData, call_host; cbn [queue canvasRef sent].
  unfold background. rewrite <- !app_assoc. reflexivity.
Qed.

Lemma clearCanvas_unmounted q o :
  clearCanvas (mkEnv q None o)
  = (Returns tt,
     mkEnv (q ++ [SetStrokes []; SetCurrentStroke None; SetHasContent false])
           None (o ++ [DrawingChange false])).
Proof.
  unfold clearCanvas, bind. cbn. now rewrite <- !app_assoc.
Qed.

Lemma stopDrawing_keeps_canvas (r : State) (w : Env) :
  canvasRef (snd (stopDrawing r w)) = canvasRef w.
Proof.
  destruct (isDrawing r) eqn:Hd; [destruct (currentStroke r) as [cs|] eqn:Hc|].
  - now rewrite (stopDrawing_runs r cs).
  - now rewrite stopDrawing_idle by auto.
  - now rewrite stopDrawing_idle by auto.
Qed.

Lemma draw_keeps_canvas (r : State) (p : Point) (w : Env) :
  canvasRef (snd (draw r p w)) = canvasRef w.
Proof.
  destruct (isDrawing r) eqn:Hd; [destruct (currentStroke r) as [cs|] eqn:Hc|].
  - now rewrite (draw_runs r cs).
  - now rewrite draw_idle by auto.
  - now rewrite draw_idle by auto.
Qed.

Lemma undoLastStroke_keeps_canvas (r : State) (w : Env) :
  canvasRef (snd (undoLastStroke r w)) = canvasRef w.
Proof.
  destruct (strokes r) as [|s l] eqn:Hs.
  - now rewrite undoLastStroke_empty.
  - rewrite undoLastStroke_runs; [reflexivity|congruence].
Qed.

Lemma handler_keeps_canvas (r : State) (ev : Event) (w : Env) :
  ev <> ClickClear -> canvasRef (snd (handler r ev w)) = canvasRef w.
Proof.
  intros Hev.
  destruct ev; cbn [handler]; try congruence;
    unfold handleMouseDown, handleMouseMove, handleMouseUp,
      handleTouchStart, handleTouchMove, handleTouchEnd;
    try apply stopDrawing_keeps_canvas;
    try apply undoLastStroke_keeps_canvas.
  - rewrite (bind_returns _ _ _ _ _ (getMousePos_runs e w)).
    now rewrite startDrawing_runs.
  - rewrite (bind_returns _ _ _ _ _ (getMousePos_runs e w)).
    apply draw_keeps_canvas.
  - unfold bind. rewrite getTouchPos_runs.
    destruct w as [q [cv|] o]; [destruct (touches e)|];
      cbn [canvasRef]; cbv beta iota; try reflexivity;
      now rewrite startDrawing_runs.
  - unfold bind. rewrite getTouchPos_runs.
    destruct w as [q [cv|] o]; [destruct (touches e)|];
      cbn [canvasRef]; cbv beta iota; try reflexivity;
      apply draw_keeps_canvas.
Qed.

(** When no redraw is due, the commit changed neither the log nor the
    active stroke. *)
Lemma commit_without_redraw (r : State) (q : list Update) :
  redraw_due r q = false ->
  strokes (commit q r) = strokes r
  /\ currentStroke (commit q r) = currentStroke r.
Proof.
  unfold commit, redraw_due.
  enough (forall r0, strokes r0 = strokes r ->
                     currentStroke r0 = currentStroke r ->
                     existsb (fun u =>
                                match u with
                                | SetStrokes _ | UpdateStrokes _ => true
                                | SetCurrentStroke (Some _) => true
                                | SetCurrentStroke None =>
                                    match currentStroke r with
                                    | Some _ => true
                                    | None => false
                                    end
                                | SetIsDrawing _ | SetHasContent _ => false
                                end) q = false ->
                     strokes (fold_left apply_update q r0) = strokes r
                     /\ currentStroke (fold_left apply_update q r0)
                        = currentStroke r) as H by (apply H; reflexivity).
  induction q as [|u q IH]; intros r0 Hs Hc Hq; cbn in *; [auto|].
  apply orb_false_iff in Hq as [Hu Hq].
  apply IH; trivial; destruct u as [v|[v|]|v|f|v]; cbn; try discriminate; trivial.
  destruct (currentStroke r); [discriminate|reflexivity].
Qed.

(** ** The session invariant *)

Lemma neutral_assign_fillStyle (v : string) (c : Context2D) :
  neutral c -> neutral (assign_fillStyle v c).
Proof. intros [Ha Hg]. split; assumption. Qed.

Lemma mount_settled (w h : number) (rect : DOMRect) :
  settled w h rect (after (mount w h rect)).
Proof.
  unfold settled, mount, new_canvas. cbn [after session_state session_canvas].
  rewrite redrawCanvas_runs by (split; reflexivity).
  cbn [snd canvasRef]. eexists. split; [reflexivity|].
  apply pass_ctx_neutral. split; reflexivity.
Qed.

Lemma dispatch_settled (w h : number) (rect : DOMRect) (s : Session)
      (ev : Event) :
  settled w h rect s -> settled w h rect (after (dispatch s ev)).
Proof.
  intros (c & Hcv & Hn).
  unfold settled, dispatch. cbn [after session_state session_canvas].
  rewrite Hcv.
  assert (Hclear : ev = ClickClear \/ ev <> ClickClear)
    by (destruct ev; auto; right; discriminate).
  destruct Hclear as [->|Hev].
  - cbn [handler]. rewrite clearCanvas_runs by assumption.
    cbn [snd queue canvasRef sent app redraw_due existsb orb].
    rewrite redrawCanvas_runs by (apply neutral_assign_fillStyle, Hn).
    cbn [snd canvasRef]. eexists. split; [reflexivity|].
    apply pass_ctx_neutral, neutral_assign_fillStyle, Hn.
  - rewrite (handler_keeps_canvas _ _ _ Hev). cbn [canvasRef].
    destruct (redraw_due _ _) eqn:Hdue.
    + rewrite redrawCanvas_runs by assumption.
      cbn [snd canvasRef]. eexists. split; [reflexivity|].
      apply pass_ctx_neutral, Hn.
    + cbn [ret snd canvasRef].
      destruct (commit_without_redraw _ _ Hdue) as [Hs Hc].
      rewrite Hs, Hc. exists c. split; [reflexivity|assumption].
Qed.

Lemma reachable_settled (w h : number) (rect : DOMRect) (s : Session) :
  reachable w h rect s -> settled w h rect s.
Proof.
  induction 1 as [|s ev _ IH].
  - apply mount_settled.
  - apply dispatch_settled, IH.
Qed.

(** ** One event on a mounted canvas with a neutral context *)

Lemma dispatch_stop (r : State) w h b c sf (ev : Event) (cs : Stroke) :
  neutral c -> releases ev = true ->
  isDrawing r = true -> currentStroke r = Some cs ->
  dispatch (mkSession r (Some (mkCanvas w h b c sf))) ev
  = mkStep (redrawn w h b c (completed_state r cs))
           [DrawingChange ((0 <? List.length (strokes r))%nat
                           || (1 <? List.length (points cs))%nat);
            ImageData (image w h (strokes r ++ [cs]) None)]
           None.
Proof.
  intros Hn Hev Hd Hc.
  assert (Hh : handler r ev = stopDrawing r)
    by (destruct ev; try discriminate; reflexivity).
  unfold dispatch. cbn [session_state session_canvas]. rewrite Hh.
  rewrite (stopDrawing_runs r cs) by assumption.
  cbn [snd fst queue canvasRef sent app thrown].
  assert (Hq : redraw_due r (stop_queue r cs) = true) by reflexivity.
  rewrite Hq.
  assert (Hr : commit (stop_queue r cs) r = completed_state r cs)
    by reflexivity.
  rewrite Hr. rewrite redrawCanvas_runs by assumption.
  reflexivity.
Qed.

Lemma dispatch_stop_idle (s : Session) (ev : Event) :
  releases ev = true ->
  isDrawing (session_state s) = false \/ currentStroke (session_state s) = None ->
  dispatch s ev = mkStep s [] None.
Proof.
  intros Hev Hidle.
  assert (Hh : handler (session_state s) ev = stopDrawing (session_state s))
    by (destruct ev; try discriminate; reflexivity).
  unfold dispatch. rewrite Hh, stopDrawing_idle by assumption.
  cbn. now destruct s.
Qed.

Lemma dispatch_undo (r : State) w h b c sf :
  neutral c -> strokes r <> [] ->
  dispatch (mkSession r (Some (mkCanvas w h b c sf))) ClickUndo
  = mkStep (redrawn w h b c (undone_state r))
           [DrawingChange (1 <? List.length (strokes r))%nat;
            ImageData (image w h (removelast (strokes r)) (currentStroke r))]
           None.
Proof.
  intros Hn Hne.
  unfold dispatch. cbn [session_state session_canvas handler].
  rewrite undoLastStroke_runs by assumption.
  cbn [snd fst queue canvasRef sent app thrown].
  assert (Hq : redraw_due r (undo_queue r) = true) by reflexivity.
  rewrite Hq.
  assert (Hr : commit (undo_queue r) r = undone_state r) by reflexivity.
  rewrite Hr. rewrite redrawCanvas_runs by assumption.
  reflexivity.
Qed.

Lemma dispatch_undo_empty (s : Session) :
  strokes (session_state s) = [] -> dispatch s ClickUndo = mkStep s [] None.
Proof.
  intros He. unfold dispatch. cbn [handler].
  rewrite undoLastStroke_empty by assumption.
  cbn. now destruct s.
Qed.

Lemma dispatch_clear (r : State) w h b c sf :
  neutral c ->
  dispatch (mkSession r (Some (mkCanvas w h b c sf))) ClickClear
  = mkStep (redrawn w h b (assign_fillStyle "#FFFFFF" c) (cleared_state r))
           [DrawingChange false;
            ImageData (image w h [] None);
            ImageData (image w h [] None)]
           None.
Proof.
  intros Hn.
  unfold dispatch. cbn [session_state session_canvas handler].
  rewrite clearCanvas_runs by assumption.
  cbn [snd fst queue canvasRef sent app thrown redraw_due existsb orb].
  assert (Hr : commit [SetStrokes []; SetCurrentStroke None; SetHasContent false] r
               = cleared_state r) by reflexivity.
  rewrite Hr.
  rewrite redrawCanvas_runs by (apply neutral_assign_fillStyle, Hn).
  reflexivity.
Qed.

Lemma dispatch_start (r : State) w h b c sf (p : Point) (ev : Event) :
  neutral c ->
  handler r ev (mkEnv [] (Some (mkCanvas w h b c sf)) [])
  = startDrawing r p (mkEnv [] (Some (mkCanvas w h b c sf)) []) ->
  dispatch (mkSession r (Some (mkCanvas w h b c sf))) ev
  = mkStep (redrawn w h b c (started_state r p))
           [ImageData (image w h (strokes r) (Some (new_stroke r p)))]
           None.
Proof.
  intros Hn Hh.
  unfold dispatch. cbn [session_state session_canvas]. rewrite Hh.
  rewrite startDrawing_runs.
  cbn [snd fst queue canvasRef sent app thrown redraw_due existsb orb].
  assert (Hr : commit [SetIsDrawing true; SetCurrentStroke (Some (new_stroke r p))] r
               = started_state r p) by reflexivity.
  rewrite Hr. rewrite redrawCanvas_runs by assumption.
  reflexivity.
Qed.

Lemma dispatch_draw (r : State) w h b c sf (p : Point) (ev : Event)
      (cs : Stroke) :
  neutral c ->
  handler r ev (mkEnv [] (Some (mkCanvas w h b c sf)) [])
  = draw r p (mkEnv [] (Some (mkCanvas w h b c sf)) []) ->
  isDrawing r = true -> currentStroke r = Some cs ->
  dispatch (mkSession r (Some (mkCanvas w h b c sf))) ev
  = mkStep (redrawn w h b c (extended_state r cs p))
           [ImageData
              (image w h (strokes r)
                     (Some (mkStroke (points cs ++ [p]) (color cs) (width cs)
                                     (tool cs))))]
           None.
Proof.
  intros Hn Hh Hd Hc.
  unfold dispatch. cbn [session_state session_canvas]. rewrite Hh.
  rewrite (draw_runs r cs) by assumption.
  cbn [snd fst queue canvasRef sent app thrown redraw_due existsb orb].
  unfold commit. cbn [fold_left apply_update].
  fold (extended_state r cs p).
  rewrite redrawCanvas_runs by assumption.
  reflexivity.
Qed.

(** ** Content-presence *)

Lemma removelast_length {A} (l : list A) :
  List.length (removelast l) = pred (List.length l).
Proof.
  induction l as [|a l IH]; [reflexivity|].
  destruct l as [|a' l]; [reflexivity|].
  cbn [removelast List.length] in *. now rewrite IH.
Qed.

Lemma delivered_presence_app (a b : list Output) :
  delivered_presence (a ++ b)
  = match delivered_presence b with
    | Some v => Some v
    | None => delivered_presence a
    end.
Proof.
  unfold delivered_presence. rewrite fold_left_app.
  generalize (fold_left
                (fun acc o =>
                   match o with
                   | DrawingChange v => Some v
                   | ImageData _ => acc
                   end) a None) as acc.
  induction b as [|o b IH]; intros acc; cbn; [reflexivity|].
  destruct o as [v|d].
  - rewrite (IH (Some v)), (IH None).
    now destruct (fold_left _ b None).
  - apply IH.
Qed.

(** C1, as the source has it.  Completing the active stroke delivers the
    content-presence policy (log non-empty, or active stroke of more than
    one point) evaluated on the state BEFORE the transition: the log
    without the stroke being completed, and that stroke as the active one.
    Undo on a non-empty log delivers whether the log is non-empty after the
    removal, and clear delivers false, which is the policy on the state it
    leaves. *)
Theorem presence_delivered_on_transition (w h : number) (rect : DOMRect)
        (s : Session) :
  settled w h rect s ->
  (forall ev cs,
      releases ev = true ->
      isDrawing (session_state s) = true ->
      currentStroke (session_state s) = Some cs ->
      delivered_presence (outputs (dispatch s ev))
      = Some (content_presence (session_state s)))
  /\ (strokes (session_state s) <> [] ->
      delivered_presence (outputs (dispatch s ClickUndo))
      = Some (negb (Nat.eqb
                      (List.length
                         (strokes (session_state (after (dispatch s ClickUndo)))))
                      0)))
  /\ delivered_presence (outputs (dispatch s ClickClear)) = Some false
  /\ content_presence (session_state (after (dispatch s ClickClear))) = false.
Proof.
  intros (c & Hcv & Hn). destruct s as [r cvo]. cbn in Hcv. subst cvo.
  cbn [session_state]. split; [|split; [|split]].
  - intros ev cs Hev Hd Hc.
    rewrite (dispatch_stop r w h rect c _ ev cs) by assumption.
    cbn [outputs]. unfold content_presence. rewrite Hc.
    destruct (strokes r); reflexivity.
  - intros Hne. rewrite dispatch_undo by assumption.
    cbn [outputs after redrawn session_state undone_state strokes].
    destruct (strokes r) as [|a [|a' l]]; [congruence|reflexivity|reflexivity].
  - now rewrite dispatch_clear.
  - now rewrite dispatch_clear.
Qed.

Lemma presence_delivered_on_transition_witness :
  settled 800 600 sample_rect pressed_again_session
  /\ delivered_presence (outputs (dispatch pressed_again_session MouseLeave))
     = Some true
  /\ delivered_presence (outputs (dispatch pressed_again_session ClickUndo))
     = Some false
  /\ delivered_presence (outputs (dispatch pressed_again_session ClickClear))
     = Some false.
Proof.
  assert (Hs : settled 800 600 sample_rect pressed_again_session)
    by settled_by_evaluation pressed_again_session.
  destruct (presence_delivered_on_transition 800 600 sample_rect
              pressed_again_session Hs) as (Hstop & Hundo & Hclear & _).
  split; [exact Hs|split; [|split]].
  - apply (Hstop MouseLeave
                 (mkStroke [mkPoint 100 200] "#000000" 5 pen));
      reflexivity.
  - apply Hundo. vm_compute. discriminate.
  - exact Hclear.
Defined.

(** Completing a first stroke of a single point: the host is told there is
    no content, while the log is then non-empty. *)
Lemma first_dot_reports_no_content :
  delivered_presence
    (outputs (dispatch pressed_session (MouseUp (mkMouseEvent 60 70))))
  = Some false
  /\ content_presence
       (session_state
          (after (dispatch pressed_session (MouseUp (mkMouseEvent 60 70)))))
     = true.
Proof. split; vm_compute; reflexivity. Qed.

(** ** Touch events without touch points *)

(** C2, as the source has it.  On a mounted canvas a touch-start or
    touch-move event with an empty touch list records no point, sends
    nothing to the host and leaves the session as it was, but it is not
    silently ignored: the coordinate mapper raises a TypeError.  A touch-end
    event never reads the touch list; it completes the active stroke like
    any other release. *)
Theorem touch_without_points (r : State) (cv : Canvas) :
  (forall q o,
      getTouchPos (mkTouchEvent []) (mkEnv q (Some cv) o)
      = (Throws TypeError, mkEnv q (Some cv) o))
  /\ dispatch (mkSession r (Some cv)) (TouchStart (mkTouchEvent []))
     = mkStep (mkSession r (Some cv)) [] (Some TypeError)
  /\ dispatch (mkSession r (Some cv)) (TouchMove (mkTouchEvent []))
     = mkStep (mkSession r (Some cv)) [] (Some TypeError)
  /\ dispatch (mkSession r (Some cv)) (TouchEnd (mkTouchEvent []))
     = dispatch (mkSession r (Some cv)) MouseLeave.
Proof.
  assert (Hmap : forall q o,
             getTouchPos (mkTouchEvent []) (mkEnv q (Some cv) o)
             = (Throws TypeError, mkEnv q (Some cv) o))
    by (intros q o; now rewrite getTouchPos_runs).
  split; [exact Hmap|split; [|split]].
  - unfold dispatch. cbn [session_state session_canvas handler].
    unfold handleTouchStart, bind. rewrite Hmap. reflexivity.
  - unfold dispatch. cbn [session_state session_canvas handler].
    unfold handleTouchMove, bind. rewrite Hmap. reflexivity.
  - reflexivity.
Qed.

(** A touch-start with no touch points fails, and a touch-end with no touch
    points (the last finger lifted) moves the active stroke into the log. *)
Lemma empty_touch_not_ignored :
  error (dispatch blank_session (TouchStart (mkTouchEvent [])))
  = Some TypeError
  /\ strokes (session_state
                (after (dispatch dragging_session (TouchEnd (mkTouchEvent [])))))
     <> strokes (session_state dragging_session).
Proof. split; vm_compute; [reflexivity|discriminate]. Qed.

(** ** Tool modifiers *)

(** C3.  On a canvas whose context is neutral (as it is in every reachable
    session, [reachable_settled]), a stroke of two or more points is
    painted, whether it comes from the log or is the active stroke, as one
    path through its points with round caps and joins and with the
    modifiers its tool fixes: pen, the stored width, alpha 1, source-over;
    brush, 1.5 times the width, alpha 0.7, source-over; marker, twice the
    width, alpha 0.5, source-over; eraser, the stored width with
    destination-out.  At stroke start the eraser gets the background colour
    [#FFFFFF] and twice the configured width, and every other tool the
    configured colour and width. *)
Theorem tool_fixes_modifiers (s : Stroke) q w h b c sf o (r : State)
        (p : Point) :
  neutral c -> (2 <= List.length (points s))%nat ->
  let painted :=
    StrokePath (segments (points s)) (color s)
               match tool s with
               | pen => width s
               | brush => width s * 1.5
               | marker => width s * 2
               | eraser => width s
               end
               "round" "round"
               match tool s with
               | pen => 1 | brush => 0.7 | marker => 0.5 | eraser => 1
               end
               match tool s with
               | pen | brush | marker => "source-over"
               | eraser => "destination-out"
               end in
  (exists c',
      draw_logged_stroke s (mkEnv q (Some (mkCanvas w h b c sf)) o)
      = (Returns tt, mkEnv q (Some (mkCanvas w h b c' (sf ++ [painted]))) o)
      /\ neutral c')
  /\ (exists c',
         draw_current_stroke (Some s) (mkEnv q (Some (mkCanvas w h b c sf)) o)
         = (Returns tt, mkEnv q (Some (mkCanvas w h b c' (sf ++ [painted]))) o)
         /\ neutral c')
  /\ (forall env,
         startDrawing r p env
         = (Returns tt,
            mkEnv (queue env
                   ++ [SetIsDrawing true;
                       SetCurrentStroke
                         (Some (mkStroke [p]
                                  match currentTool r with
                                  | eraser => "#FFFFFF"
                                  | _ => currentColor r
                                  end
                                  match currentTool r with
                                  | eraser => currentWidth r * 2
                                  | _ => currentWidth r
                                  end
                                  (currentTool r)))])
                  (canvasRef env) (sent env)))
  /\ background w h = FillRect "#FFFFFF" 1 "source-over" 0 0 w h.
Proof.
  intros Hn Hlen painted.
  assert (Hd : drawable s = true)
    by (unfold drawable; apply Nat.ltb_lt; lia).
  assert (Hp : painted = stroke_paint s)
    by (unfold painted, stroke_paint, stroke_lineWidth, tool_alpha, tool_blend;
        destruct (tool s); reflexivity).
  rewrite Hp. split; [|split; [|split]].
  - exists (painted_ctx c s). split; [|split; reflexivity].
    now apply draw_logged_stroke_paints.
  - exists (painted_ctx c s). split; [|split; reflexivity].
    now apply draw_current_stroke_paints.
  - intros env. rewrite startDrawing_runs. unfold new_stroke.
    destruct (currentTool r); reflexivity.
  - reflexivity.
Qed.

Lemma tool_fixes_modifiers_witness :
  neutral default_context
  /\ (2 <= List.length (points sample_brush_stroke))%nat
  /\ option_map surface
                (canvasRef (snd (draw_logged_stroke sample_brush_stroke
                                                    sample_env)))
     = Some [StrokePath [MoveTo 100 100; LineTo 700 100] "#FF0000" 7.5
                        "round" "round" 0.7 "source-over"].
Proof.
  assert (Hn : neutral default_context) by (split; reflexivity).
  assert (Hl : (2 <= List.length (points sample_brush_stroke))%nat)
    by (cbn; lia).
  split; [exact Hn|split; [exact Hl|]].
  destruct (tool_fixes_modifiers sample_brush_stroke [] 800 600 sample_rect
              default_context [] [] initial_state (mkPoint 0 0) Hn Hl)
    as ((c' & Hrun & _) & _).
  unfold sample_env, new_canvas. rewrite Hrun. reflexivity.
Defined.

(** ** Undo *)

Lemma redrawn_settled (w h : number) (rect : DOMRect) (c : Context2D)
      (r : State) :
  neutral c -> settled w h rect (redrawn w h rect c r).
Proof.
  intros Hn. exists (pass_ctx c r). split; [reflexivity|].
  apply pass_ctx_neutral, Hn.
Qed.

Lemma undo_all (w h : number) (rect : DOMRect) (n : nat) :
  forall s,
    settled w h rect s ->
    List.length (strokes (session_state s)) = n ->
    strokes (session_state (fst (run s (repeat ClickUndo n)))) = []
    /\ ((1 <= n)%nat ->
        delivered_presence (snd (run s (repeat ClickUndo n))) = Some false
        /\ hasContent (session_state (fst (run s (repeat ClickUndo n))))
           = false).
Proof.
  induction n as [|m IH]; intros s Hs Hlen.
  - cbn. split; [|lia]. now apply length_zero_iff_nil.
  - destruct Hs as (c & Hcv & Hn). destruct s as [r cvo].
    cbn in Hcv, Hlen. subst cvo.
    assert (Hne : strokes r <> [])
      by (intros He; rewrite He in Hlen; discriminate).
    cbn [repeat run]. rewrite dispatch_undo by assumption.
    cbn [after outputs fst snd].
    assert (Hlen' : List.length
                      (strokes (session_state
                                  (redrawn w h rect c (undone_state r)))) = m)
      by (cbn [redrawn session_state undone_state strokes];
          rewrite removelast_length, Hlen; reflexivity).
    destruct (IH _ (redrawn_settled w h rect c (undone_state r) Hn) Hlen')
      as [Hempty Hlast].
    split; [exact Hempty|]. intros _.
    destruct m as [|m'].
    + cbn [repeat run fst snd redrawn session_state undone_state hasContent].
      rewrite Hlen. split; reflexivity.
    + destruct Hlast as [Hp Hc]; [lia|].
      split; [|exact Hc].
      rewrite delivered_presence_app, Hp. reflexivity.
Qed.

(** C4.  With N >= 1 strokes in the log, one undo removes exactly the last
    entry, keeps the first N-1 as they were and delivers content-presence
    (N-1 > 0); on an empty log undo changes nothing and sends nothing; and
    N undos from N strokes leave the log empty, with content-presence false
    when N >= 1. *)
Theorem undo_is_one_step (w h : number) (rect : DOMRect) (s : Session) :
  settled w h rect s ->
  (forall log last,
      strokes (session_state s) = log ++ [last] ->
      strokes (session_state (after (dispatch s ClickUndo))) = log
      /\ delivered_presence (outputs (dispatch s ClickUndo))
         = Some (0 <? List.length log)%nat
      /\ hasContent (session_state (after (dispatch s ClickUndo)))
         = (0 <? List.length log)%nat
      /\ error (dispatch s ClickUndo) = None)
  /\ (strokes (session_state s) = [] ->
      dispatch s ClickUndo = mkStep s [] None)
  /\ strokes
       (session_state
          (fst (run s (repeat ClickUndo
                              (List.length (strokes (session_state s)))))))
     = []
  /\ ((1 <= List.length (strokes (session_state s)))%nat ->
      delivered_presence
        (snd (run s (repeat ClickUndo
                            (List.length (strokes (session_state s))))))
      = Some false
      /\ hasContent
           (session_state
              (fst (run s (repeat ClickUndo
                                  (List.length (strokes (session_state s)))))))
         = false).
Proof.
  intros Hs.
  split; [|split; [apply dispatch_undo_empty|
                   apply (undo_all w h rect _ s Hs eq_refl)]].
  intros log last Hlog.
  destruct Hs as (c & Hcv & Hn). destruct s as [r cvo].
  cbn in Hcv, Hlog. subst cvo.
  rewrite dispatch_undo by (trivial; rewrite Hlog; now destruct log).
  cbn [after outputs error redrawn session_state undone_state strokes
       hasContent delivered_presence fold_left].
  rewrite Hlog, removelast_last, length_app. cbn [List.length].
  assert (Hb : (1 <? List.length log + 1)%nat = (0 <? List.length log)%nat)
    by (destruct log; [reflexivity|cbn [List.length]; apply eq_true_iff_eq;
        rewrite !Nat.ltb_lt; lia]).
  rewrite Hb. repeat split.
Qed.

Lemma undo_is_one_step_witness :
  settled 800 600 sample_rect pressed_again_session
  /\ strokes (session_state (after (dispatch pressed_again_session ClickUndo)))
     = []
  /\ delivered_presence (outputs (dispatch pressed_again_session ClickUndo))
     = Some false
  /\ delivered_presence
       (snd (run pressed_again_session (repeat ClickUndo 1))) = Some false.
Proof.
  assert (Hs : settled 800 600 sample_rect pressed_again_session)
    by settled_by_evaluation pressed_again_session.
  destruct (undo_is_one_step 800 600 sample_rect pressed_again_session Hs)
    as (Hone & _ & _ & Hall).
  destruct (Hone [] (mkStroke [mkPoint 100 100; mkPoint 700 100]
                              "#000000" 5 pen) eq_refl)
    as (Hlog & Hpres & _).
  split; [exact Hs|split; [exact Hlog|split; [exact Hpres|]]].
  apply Hall. cbn. lia.
Defined.

(** ** Clear *)

Lemma mount_runs (w h : number) (rect : DOMRect) :
  mount w h rect
  = mkStep (redrawn w h rect default_context initial_state)
           [ImageData (image w h [] None)] None.
Proof.
  unfold mount, new_canvas.
  rewrite redrawCanvas_runs by (split; reflexivity).
  reflexivity.
Qed.

(** C5.  From any session state, clear leaves an empty log and no active
    stroke, delivers content-presence false, and every image it delivers is
    the image delivered when the canvas was first mounted: the surface
    filled with opaque [#FFFFFF] and nothing else. *)
Theorem clear_gives_blank_canvas (w h : number) (rect : DOMRect)
        (s : Session) :
  settled w h rect s ->
  strokes (session_state (after (dispatch s ClickClear))) = []
  /\ currentStroke (session_state (after (dispatch s ClickClear))) = None
  /\ delivered_presence (outputs (dispatch s ClickClear)) = Some false
  /\ hasContent (session_state (after (dispatch s ClickClear))) = false
  /\ (forall d, In (ImageData d) (outputs (dispatch s ClickClear)) ->
                In (ImageData d) (outputs (mount w h rect)))
  /\ delivered_image (outputs (dispatch s ClickClear))
     = delivered_image (outputs (mount w h rect))
  /\ delivered_image (outputs (dispatch s ClickClear))
     = Some (mkDataURL "image/png" w h
                       [FillRect "#FFFFFF" 1 "source-over" 0 0 w h])
  /\ option_map surface (session_canvas (after (dispatch s ClickClear)))
     = option_map surface (session_canvas (after (mount w h rect)))
  /\ error (dispatch s ClickClear) = None.
Proof.
  intros (c & Hcv & Hn). destruct s as [r cvo]. cbn in Hcv. subst cvo.
  rewrite dispatch_clear by assumption. rewrite mount_runs.
  cbn [after outputs error redrawn session_state session_canvas cleared_state
       strokes currentStroke hasContent option_map surface].
  repeat split.
  intros d [Hd|[Hd|[Hd|[]]]]; try discriminate; left; exact Hd.
Qed.

Lemma clear_gives_blank_canvas_witness :
  settled 800 600 sample_rect pressed_again_session
  /\ strokes (session_state (after (dispatch pressed_again_session ClickClear)))
     = []
  /\ delivered_image (outputs (dispatch pressed_again_session ClickClear))
     = delivered_image (outputs (mount 800 600 sample_rect)).
Proof.
  assert (Hs : settled 800 600 sample_rect pressed_again_session)
    by settled_by_evaluation pressed_again_session.
  destruct (clear_gives_blank_canvas 800 600 sample_rect
              pressed_again_session Hs)
    as (Hlog & _ & _ & _ & _ & Himg & _).
  split; [exact Hs|split; [exact Hlog|exact Himg]].
Defined.

(** ** The render pass *)

(** C6.  Started on a neutral context (as in every reachable session), a
    render pass returns normally and its result depends on the stroke log
    and the active stroke only: whatever the surface held before, whatever
    the other context attributes and the rest of the component state, two
    passes over the same log and active stroke leave the same display list
    and deliver the same image.  The display list is the background fill,
    then the strokes of the log in log order, then the active stroke. *)
Theorem render_pass_is_function_of_strokes
        (r1 r2 : State) q1 q2 o1 o2 w h b1 b2 c1 c2 sf1 sf2 :
  neutral c1 -> neutral c2 ->
  strokes r1 = strokes r2 -> currentStroke r1 = currentStroke r2 ->
  exists c1' c2' ops,
    redrawCanvas r1 (mkEnv q1 (Some (mkCanvas w h b1 c1 sf1)) o1)
    = (Returns tt,
       mkEnv q1 (Some (mkCanvas w h b1 c1' ops))
             (o1 ++ [ImageData (mkDataURL "image/png" w h ops)]))
    /\ redrawCanvas r2 (mkEnv q2 (Some (mkCanvas w h b2 c2 sf2)) o2)
       = (Returns tt,
          mkEnv q2 (Some (mkCanvas w h b2 c2' ops))
                (o2 ++ [ImageData (mkDataURL "image/png" w h ops)]))
    /\ ops = FillRect "#FFFFFF" 1 "source-over" 0 0 w h
               :: map stroke_paint (filter drawable (strokes r1))
               ++ map stroke_paint
                      (filter drawable (active_layer (currentStroke r1)))
    /\ neutral c1' /\ neutral c2'.
Proof.
  intros Hn1 Hn2 Hs Hc.
  exists (pass_ctx c1 r1), (pass_ctx c2 r2),
    (rendering w h (strokes r1) (currentStroke r1)).
  split; [now apply redrawCanvas_runs|].
  split; [rewrite Hs, Hc; now apply redrawCanvas_runs|].
  split; [|split; now apply pass_ctx_neutral].
  unfold rendering, background. now rewrite filter_app, map_app.
Qed.

Lemma render_pass_is_function_of_strokes_witness :
  neutral default_context /\ neutral (ctx used_canvas)
  /\ option_map surface
                (canvasRef (snd (redrawCanvas sample_state sample_env)))
     = option_map surface
                  (canvasRef (snd (redrawCanvas sample_state_erasing
                                                (mkEnv [] (Some used_canvas) []))))
  /\ sent (snd (redrawCanvas sample_state sample_env))
     = sent (snd (redrawCanvas sample_state_erasing
                               (mkEnv [] (Some used_canvas) []))).
Proof.
  assert (Hn1 : neutral default_context) by (split; reflexivity).
  assert (Hn2 : neutral (ctx used_canvas)) by (split; reflexivity).
  split; [exact Hn1|split; [exact Hn2|]].
  destruct (render_pass_is_function_of_strokes
              sample_state sample_state_erasing
              [] [] [] [] 800 600 sample_rect (mkDOMRect 0 0 800 600)
              default_context (ctx used_canvas) [] (surface used_canvas)
              Hn1 Hn2 eq_refl eq_refl)
    as (c1' & c2' & ops & H1 & H2 & _).
  unfold sample_env, new_canvas.
  change used_canvas
    with (mkCanvas 800 600 (mkDOMRect 0 0 800 600) (ctx used_canvas)
                   (surface used_canvas)).
  rewrite H1, H2. split; reflexivity.
Defined.

(** ** Strokes of fewer than two points *)

Lemma short_not_drawable (s : Stroke) :
  (List.length (points s) < 2)%nat -> drawable s = false.
Proof. intros H. unfold drawable. apply Nat.ltb_ge. lia. Qed.

Lemma step_ctx_skips (c : Context2D) (s : Stroke) :
  drawable s = false -> step_ctx c s = c.
Proof. intros H. unfold step_ctx. now rewrite H. Qed.

Lemma state_after_release (s : Session) (ev : Event) (cs : Stroke) :
  releases ev = true ->
  isDrawing (session_state s) = true ->
  currentStroke (session_state s) = Some cs ->
  session_state (after (dispatch s ev))
  = completed_state (session_state s) cs.
Proof.
  intros Hev Hd Hc.
  assert (Hh : handler (session_state s) ev = stopDrawing (session_state s))
    by (destruct ev; try discriminate; reflexivity).
  unfold dispatch. cbn [after session_state]. rewrite Hh.
  rewrite (stopDrawing_runs _ cs) by assumption. reflexivity.
Qed.

(** C7.  A stroke of fewer than two points makes the compositor do nothing
    at all, as an entry of the log and as the active stroke: the render
    callback returns with the canvas untouched, so a whole pass gives the
    same result with the stroke as without it.  Releasing such an active
    stroke still appends it to the log. *)
Theorem short_stroke_draws_no_line (s : Stroke) :
  (List.length (points s) < 2)%nat ->
  (forall env, draw_logged_stroke s env = (Returns tt, env))
  /\ (forall env, draw_current_stroke (Some s) env = (Returns tt, env))
  /\ (forall r r' before later q w h b c sf o,
         neutral c ->
         strokes r = before ++ s :: later ->
         strokes r' = before ++ later ->
         currentStroke r' = currentStroke r ->
         redrawCanvas r (mkEnv q (Some (mkCanvas w h b c sf)) o)
         = redrawCanvas r' (mkEnv q (Some (mkCanvas w h b c sf)) o))
  /\ (forall r r' q w h b c sf o,
         neutral c ->
         currentStroke r = Some s -> currentStroke r' = None ->
         strokes r' = strokes r ->
         redrawCanvas r (mkEnv q (Some (mkCanvas w h b c sf)) o)
         = redrawCanvas r' (mkEnv q (Some (mkCanvas w h b c sf)) o))
  /\ (forall sess ev,
         releases ev = true ->
         isDrawing (session_state sess) = true ->
         currentStroke (session_state sess) = Some s ->
         strokes (session_state (after (dispatch sess ev)))
         = strokes (session_state sess) ++ [s]).
Proof.
  intros Hlen. pose proof (short_not_drawable s Hlen) as Hnd.
  split; [|split; [|split; [|split]]].
  - intros env. now apply draw_logged_stroke_skips.
  - intros env. unfold draw_current_stroke.
    unfold drawable in Hnd. now rewrite Hnd.
  - intros r r' before later q w h b c sf o Hn Hr Hr' Hc.
    rewrite !redrawCanvas_runs by assumption.
    unfold pass_ctx, rendering. rewrite Hr, Hr', Hc.
    rewrite <- !app_assoc, !fold_left_app, !filter_app. cbn [app fold_left filter].
    rewrite (step_ctx_skips _ s Hnd), !Hnd. reflexivity.
  - intros r r' q w h b c sf o Hn Hc Hc' Hs.
    rewrite !redrawCanvas_runs by assumption.
    unfold pass_ctx, rendering. rewrite Hc, Hc', Hs.
    rewrite !fold_left_app, !filter_app. cbn [active_layer fold_left filter].
    rewrite (step_ctx_skips _ s Hnd), !Hnd. reflexivity.
  - intros sess ev Hev Hd Hc.
    now rewrite (state_after_release sess ev s).
Qed.

Lemma short_stroke_draws_no_line_witness :
  (List.length (points sample_dot) < 2)%nat
  /\ draw_logged_stroke sample_dot sample_env = (Returns tt, sample_env)
  /\ (let pressed :=
        mkSession (mkState true (Some sample_dot) [] "#FF0000" 5 pen false)
                  (Some (new_canvas 800 600 sample_rect)) in
      strokes (session_state (after (dispatch pressed MouseLeave)))
      = [sample_dot]).
Proof.
  assert (Hl : (List.length (points sample_dot) < 2)%nat) by (cbn; lia).
  destruct (short_stroke_draws_no_line sample_dot Hl)
    as (Hlogged & _ & _ & _ & Hstored).
  split; [exact Hl|split; [apply Hlogged|]].
  cbv zeta. now rewrite Hstored.
Defined.

(** ** Geometry mapper *)

(** C8.  Both coordinate mappers return, on a mounted canvas, the client
    coordinate taken relative to the element's corner and scaled by backing
    size over displayed size on each axis, and on an unmounted one the
    origin; neither changes the queue, the canvas or what was sent to the
    host.  (The touch mapper reads the first touch of the event.) *)
Theorem geometry_mapper_scales :
  (forall e q cv o,
      getMousePos e (mkEnv q (Some cv) o)
      = (Returns
           (mkPoint ((mouse_clientX e - left (bounding cv))
                     * (canvas_width cv / rect_width (bounding cv)))
                    ((mouse_clientY e - top (bounding cv))
                     * (canvas_height cv / rect_height (bounding cv)))),
         mkEnv q (Some cv) o))
  /\ (forall t rest q cv o,
         getTouchPos (mkTouchEvent (t :: rest)) (mkEnv q (Some cv) o)
         = (Returns
              (mkPoint ((touch_clientX t - left (bounding cv))
                        * (canvas_width cv / rect_width (bounding cv)))
                       ((touch_clientY t - top (bounding cv))
                        * (canvas_height cv / rect_height (bounding cv)))),
            mkEnv q (Some cv) o))
  /\ (forall e q o,
         getMousePos e (mkEnv q None o)
         = (Returns (mkPoint 0 0), mkEnv q None o))
  /\ (forall te q o,
         getTouchPos te (mkEnv q None o)
         = (Returns (mkPoint 0 0), mkEnv q None o)).
Proof.
  split; [|split; [|split]].
  - intros e q cv o. now rewrite getMousePos_runs.
  - intros t rest q cv o. now rewrite getTouchPos_runs.
  - intros e q o. now rewrite getMousePos_runs.
  - intros te q o. now rewrite getTouchPos_runs.
Qed.

Example getMousePos_sample :
  getMousePos (mkMouseEvent 60 70) sample_env
  = (Returns (mkPoint 100 100), sample_env).
Proof. vm_compute. reflexivity. Qed.

Example getTouchPos_unmounted :
  getTouchPos (mkTouchEvent [mkTouch 60 70]) (mkEnv [] None [])
  = (Returns (mkPoint 0 0), mkEnv [] None []).
Proof. reflexivity. Qed.

(** ** Starting a stroke while one is active *)

Lemma rendering_fresh (w h : number) (log : list Stroke) (r : State)
      (p : Point) :
  rendering w h log (Some (new_stroke r p)) = rendering w h log None.
Proof. unfold rendering. now rewrite !filter_app. Qed.

Lemma new_stroke_captures (r : State) (p : Point) :
  new_stroke r p
  = mkStroke [p]
             match currentTool r with
             | eraser => "#FFFFFF"
             | _ => currentColor r
             end
             match currentTool r with
             | eraser => currentWidth r * 2
             | _ => currentWidth r
             end
             (currentTool r).
Proof. unfold new_stroke. now destruct (currentTool r). Qed.

(** C10.  A press or a touch-start that arrives while a stroke is active
    raises no error and leaves a session in which the old active stroke
    appears nowhere: the log is the one from before, the active stroke is a
    new stroke of the one mapped point with the tool, colour and width of
    the current configuration (as [startDrawing] captures them), the canvas
    shows the log alone, and the next release appends the new stroke. *)
Theorem start_discards_active_stroke (w h : number) (rect : DOMRect)
        (s : Session) (old : Stroke) (ev : Event) (cx cy : number)
        (rest : list Touch) :
  settled w h rect s ->
  currentStroke (session_state s) = Some old ->
  ev = MouseDown (mkMouseEvent cx cy)
  \/ ev = TouchStart (mkTouchEvent (mkTouch cx cy :: rest)) ->
  let r := session_state s in
  let fresh :=
    mkStroke [mkPoint ((cx - left rect) * (w / rect_width rect))
                      ((cy - top rect) * (h / rect_height rect))]
             match currentTool r with
             | eraser => "#FFFFFF"
             | _ => currentColor r
             end
             match currentTool r with
             | eraser => currentWidth r * 2
             | _ => currentWidth r
             end
             (currentTool r) in
  session_state (after (dispatch s ev))
  = mkState true (Some fresh) (strokes r) (currentColor r) (currentWidth r)
            (currentTool r) (hasContent r)
  /\ error (dispatch s ev) = None
  /\ outputs (dispatch s ev) = [ImageData (image w h (strokes r) None)]
  /\ option_map surface (session_canvas (after (dispatch s ev)))
     = Some (rendering w h (strokes r) None)
  /\ (forall ev',
         releases ev' = true ->
         strokes (session_state (after (dispatch (after (dispatch s ev)) ev')))
         = strokes r ++ [fresh]).
Proof.
  intros (c & Hcv & Hn) Hold Hev.
  destruct s as [r cvo]. cbn in Hcv, Hold. subst cvo.
  cbn [session_state]. cbv zeta.
  pose (cv := mkCanvas w h rect c
                       (rendering w h (strokes r) (currentStroke r))).
  assert (Hh : handler r ev (mkEnv [] (Some cv) [])
               = startDrawing r (mapped cv cx cy) (mkEnv [] (Some cv) [])).
  { destruct Hev as [->| ->]; cbn [handler];
      unfold handleMouseDown, handleTouchStart.
    - now rewrite (bind_returns _ _ _ _ _ (getMousePos_runs _ _)).
    - unfold bind. now rewrite getTouchPos_runs. }
  rewrite (dispatch_start r w h rect c _ (mapped cv cx cy) ev Hn Hh).
  cbn [after error outputs redrawn session_state session_canvas option_map
       surface started_state strokes currentStroke].
  unfold image, started_state. rewrite !rendering_fresh, new_stroke_captures.
  split; [reflexivity|split; [reflexivity|split; [reflexivity|
         split; [reflexivity|]]]].
  intros ev' Hev'.
  erewrite state_after_release; [|exact Hev'|reflexivity|reflexivity].
  reflexivity.
Qed.

Lemma start_discards_active_stroke_witness :
  settled 800 600 sample_rect dragging_session
  /\ currentStroke (session_state dragging_session)
     = Some (mkStroke [mkPoint 100 100; mkPoint 700 100] "#000000" 5 pen)
  /\ strokes
       (session_state
          (after (dispatch
                    (after (dispatch dragging_session
                                     (MouseDown (mkMouseEvent 60 120))))
                    MouseLeave)))
     = [mkStroke [mkPoint 100 200] "#000000" 5 pen].
Proof.
  assert (Hs : settled 800 600 sample_rect dragging_session)
    by settled_by_evaluation dragging_session.
  assert (Hc : currentStroke (session_state dragging_session)
               = Some (mkStroke [mkPoint 100 100; mkPoint 700 100]
                                "#000000" 5 pen))
    by (vm_compute; reflexivity).
  split; [exact Hs|split; [exact Hc|]].
  destruct (start_discards_active_stroke
              800 600 sample_rect dragging_session _
              (MouseDown (mkMouseEvent 60 120)) 60 120 [] Hs Hc
              (or_introl eq_refl))
    as (_ & _ & _ & _ & Hnext).
  rewrite (Hnext MouseLeave eq_refl). vm_compute. reflexivity.
Defined.

(** ** Drawing two strokes and undoing the second *)

Lemma delivered_image_app (a b : list Output) :
  delivered_image (a ++ b)
  = match delivered_image b with
    | Some d => Some d
    | None => delivered_image a
    end.
Proof.
  unfold delivered_image. rewrite fold_left_app.
  generalize (fold_left
                (fun acc o =>
                   match o with
                   | ImageData d => Some d
                   | DrawingChange _ => acc
                   end) a None) as acc.
  induction b as [|o b IH]; intros acc; cbn; [reflexivity|].
  destruct o as [v|d].
  - apply IH.
  - rewrite (IH (Some d)), (IH None).
    now destruct (fold_left _ b None).
Qed.

Lemma delivered_image_last (a b : list Output) (d : DataURL) :
  delivered_image b = Some d -> delivered_image (a ++ b) = Some d.
Proof. intros H. now rewrite delivered_image_app, H. Qed.

Lemma run_app (evs evs' : list Event) :
  forall s,
    run s (evs ++ evs')
    = (fst (run (fst (run s evs)) evs'),
       snd (run s evs) ++ snd (run (fst (run s evs)) evs')).
Proof.
  induction evs as [|ev evs IH]; intros s.
  - cbn. now destruct (run s evs').
  - cbn [app run fst snd]. rewrite IH. cbn [fst snd].
    now rewrite app_assoc.
Qed.

(** Moves and the release that ends them, from a session in which a stroke
    is active. *)
Lemma run_moves_release (w h : number) (rect : DOMRect)
      (moves : list MouseEvent) (up : MouseEvent) :
  forall r c sf cs,
    neutral c -> isDrawing r = true -> currentStroke r = Some cs ->
    let drawn :=
      mkStroke (points cs ++ map (mouse_point w h rect) moves)
               (color cs) (width cs) (tool cs) in
    let fin := run (mkSession r (Some (mkCanvas w h rect c sf)))
                   (map MouseMove moves ++ [MouseUp up]) in
    settled w h rect (fst fin)
    /\ strokes (session_state (fst fin)) = strokes r ++ [drawn]
    /\ currentStroke (session_state (fst fin)) = None
    /\ delivered_image (snd fin)
       = Some (image w h (strokes r ++ [drawn]) None).
Proof.
  induction moves as [|m moves IH]; intros r c sf cs Hn Hd Hc.
  - cbn [map app run]. cbv zeta. rewrite app_nil_r.
    rewrite (dispatch_stop r w h rect c sf (MouseUp up) cs) by trivial.
    cbn [after outputs fst snd]. rewrite app_nil_r.
    destruct cs as [pts col wd tl].
    split; [now apply redrawn_settled|].
    split; [reflexivity|split; reflexivity].
  - cbn [map app run]. cbv zeta.
    assert (Hh : handler r (MouseMove m)
                         (mkEnv [] (Some (mkCanvas w h rect c sf)) [])
                 = draw r (mouse_point w h rect m)
                        (mkEnv [] (Some (mkCanvas w h rect c sf)) []))
      by (cbn [handler]; unfold handleMouseMove;
          now rewrite (bind_returns _ _ _ _ _ (getMousePos_runs _ _))).
    rewrite (dispatch_draw r w h rect c sf _ _ cs Hn Hh Hd Hc).
    cbn [after outputs fst snd]. unfold redrawn.
    specialize (IH (extended_state r cs (mouse_point w h rect m))
                   (pass_ctx c (extended_state r cs (mouse_point w h rect m)))
                   (rendering w h
                      (strokes (extended_state r cs (mouse_point w h rect m)))
                      (currentStroke
                         (extended_state r cs (mouse_point w h rect m))))
                   (mkStroke (points cs ++ [mouse_point w h rect m])
                             (color cs) (width cs) (tool cs))
                   (pass_ctx_neutral c _ Hn) Hd eq_refl).
    cbv zeta in IH.
    cbn [points color width tool extended_state strokes] in IH.
    rewrite <- app_assoc in IH. cbn [app] in IH.
    destruct IH as (Hs & Hlog & Hcur & Himg).
    split; [exact Hs|split; [exact Hlog|split; [exact Hcur|]]].
    apply delivered_image_last. exact Himg.
Qed.

Lemma run_gesture (w h : number) (rect : DOMRect) (s : Session)
      (down up : MouseEvent) (moves : list MouseEvent) :
  settled w h rect s ->
  exists drawn,
    settled w h rect (fst (run s (gesture down moves up)))
    /\ strokes (session_state (fst (run s (gesture down moves up))))
       = strokes (session_state s) ++ [drawn]
    /\ currentStroke (session_state (fst (run s (gesture down moves up))))
       = None
    /\ delivered_image (snd (run s (gesture down moves up)))
       = Some (image w h (strokes (session_state s) ++ [drawn]) None).
Proof.
  intros (c & Hcv & Hn). destruct s as [r cvo]. cbn in Hcv. subst cvo.
  cbn [session_state]. unfold gesture. cbn [run].
  assert (Hh : handler r (MouseDown down)
                       (mkEnv [] (Some (mkCanvas w h rect c
                                          (rendering w h (strokes r)
                                                     (currentStroke r)))) [])
               = startDrawing r (mouse_point w h rect down)
                              (mkEnv [] (Some (mkCanvas w h rect c
                                                 (rendering w h (strokes r)
                                                            (currentStroke r))))
                                     []))
    by (cbn [handler]; unfold handleMouseDown;
        now rewrite (bind_returns _ _ _ _ _ (getMousePos_runs _ _))).
  rewrite (dispatch_start r w h rect c _ _ _ Hn Hh).
  cbn [after outputs fst snd]. unfold redrawn.
  destruct (run_moves_release
              w h rect moves up
              (started_state r (mouse_point w h rect down))
              (pass_ctx c (started_state r (mouse_point w h rect down)))
              (rendering w h
                 (strokes (started_state r (mouse_point w h rect down)))
                 (currentStroke
                    (started_state r (mouse_point w h rect down))))
              (new_stroke r (mouse_point w h rect down))
              (pass_ctx_neutral c _ Hn) eq_refl eq_refl)
    as (Hs & Hlog & Hcur & Himg).
  eexists. split; [exact Hs|split; [exact Hlog|split; [exact Hcur|]]].
  apply delivered_image_last. exact Himg.
Qed.

(** C9.  From any session, drawing a stroke A, drawing a stroke B and then
    undoing once delivers the image that drawing A alone delivered, and
    leaves the same display list on the canvas and the same log: the pass
    over the log without its last entry is the pass over the shorter
    log. *)
Theorem undo_restores_previous_image (w h : number) (rect : DOMRect)
        (s : Session) (a_down a_up b_down b_up : MouseEvent)
        (a_moves b_moves : list MouseEvent) :
  settled w h rect s ->
  delivered_image
    (snd (run s (gesture a_down a_moves a_up
                 ++ gesture b_down b_moves b_up ++ [ClickUndo])))
  = delivered_image (snd (run s (gesture a_down a_moves a_up)))
  /\ delivered_image (snd (run s (gesture a_down a_moves a_up))) <> None
  /\ option_map surface
                (session_canvas
                   (fst (run s (gesture a_down a_moves a_up
                                ++ gesture b_down b_moves b_up
                                ++ [ClickUndo]))))
     = option_map surface
                  (session_canvas (fst (run s (gesture a_down a_moves a_up))))
  /\ strokes
       (session_state
          (fst (run s (gesture a_down a_moves a_up
                       ++ gesture b_down b_moves b_up ++ [ClickUndo]))))
     = strokes (session_state (fst (run s (gesture a_down a_moves a_up)))).
Proof.
  intros Hs.
  destruct (run_gesture w h rect s a_down a_up a_moves Hs)
    as (drawnA & HsA & HlogA & HcurA & HimgA).
  rewrite !run_app. cbn [fst snd].
  remember (fst (run s (gesture a_down a_moves a_up))) as sA eqn:EA.
  clear EA.
  destruct (run_gesture w h rect sA b_down b_up b_moves HsA)
    as (drawnB & HsB & HlogB & HcurB & HimgB).
  remember (fst (run sA (gesture b_down b_moves b_up))) as sB eqn:EB.
  clear EB.
  destruct HsB as (cB & HcvB & HnB).
  destruct sB as [rB cvoB].
  cbn [session_state session_canvas] in HcvB, HlogB, HcurB. subst cvoB.
  assert (Hne : strokes rB <> [])
    by (rewrite HlogB; intros E; apply app_eq_nil in E;
        destruct E; discriminate).
  cbn [run]. rewrite dispatch_undo by assumption.
  cbn [after outputs fst snd redrawn session_state session_canvas option_map
       surface].
  unfold undone_state; cbn [strokes currentStroke].
  rewrite HlogB, HcurB, removelast_last.
  destruct HsA as (cA & HcvA & HnA). rewrite HcvA, HcurA.
  cbn [option_map surface].
  split; [|split; [|split]].
  - rewrite !delivered_image_app. cbn [delivered_image fold_left app].
    rewrite HimgA, HlogA. reflexivity.
  - rewrite HimgA. discriminate.
  - reflexivity.
  - reflexivity.
Qed.

Lemma undo_restores_previous_image_witness :
  settled 800 600 sample_rect blank_session
  /\ delivered_image
       (snd (run blank_session
                 (gesture (mkMouseEvent 60 70) [mkMouseEvent 360 70]
                          (mkMouseEvent 360 70)
                  ++ gesture (mkMouseEvent 60 120) [mkMouseEvent 360 220]
                             (mkMouseEvent 360 220)
                  ++ [ClickUndo])))
     = delivered_image
         (snd (run blank_session
                   (gesture (mkMouseEvent 60 70) [mkMouseEvent 360 70]
                            (mkMouseEvent 360 70)))).
Proof.
  assert (Hs : settled 800 600 sample_rect blank_session)
    by settled_by_evaluation blank_session.
  split; [exact Hs|].
  apply (undo_restores_previous_image
           800 600 sample_rect blank_session
           (mkMouseEvent 60 70) (mkMouseEvent 360 70)
           (mkMouseEvent 60 120) (mkMouseEvent 360 220)
           [mkMouseEvent 360 70] [mkMouseEvent 360 220] Hs).
Defined.

(** * Further properties of the component *)

(** ** The state after an event *)

Lemma handler_queue (r : State) (cvo : option Canvas) (ev : Event) :
  commit (queue (snd (handler r ev (mkEnv [] cvo [])))) r
  = step_state r cvo ev.
Proof.
  destruct ev; cbn [handler step_state];
    unfold handleMouseDown, handleMouseMove, handleMouseUp,
      handleTouchStart, handleTouchMove, handleTouchEnd.
  - rewrite (bind_returns _ _ _ _ _ (getMousePos_runs _ _)).
    now rewrite startDrawing_runs.
  - rewrite (bind_returns _ _ _ _ _ (getMousePos_runs _ _)).
    cbn [canvasRef]. fold (mouse_target cvo e). unfold draw, draw_step.
    destruct (isDrawing r); [destruct (currentStroke r)|]; reflexivity.
  - unfold stopDrawing, stop_step.
    destruct (isDrawing r); [destruct (currentStroke r)|]; reflexivity.
  - unfold stopDrawing, stop_step.
    destruct (isDrawing r); [destruct (currentStroke r)|]; reflexivity.
  - unfold bind. rewrite getTouchPos_runs. unfold touch_target.
    cbn [canvasRef].
    destruct cvo as [cv|]; [destruct (touches e)|]; cbv beta iota;
      try reflexivity; now rewrite startDrawing_runs.
  - unfold bind. rewrite getTouchPos_runs. unfold touch_target.
    cbn [canvasRef].
    destruct cvo as [cv|]; [destruct (touches e)|]; cbv beta iota;
      try reflexivity; unfold draw, draw_step;
      (destruct (isDrawing r); [destruct (currentStroke r)|]; reflexivity).
  - unfold stopDrawing, stop_step.
    destruct (isDrawing r); [destruct (currentStroke r)|]; reflexivity.
  - destruct cvo as [cv|]; reflexivity.
  - unfold undo_step. destruct (strokes r) eqn:Hs.
    + now rewrite undoLastStroke_empty.
    + rewrite undoLastStroke_runs by congruence. reflexivity.
Qed.

Lemma state_after_dispatch (s : Session) (ev : Event) :
  session_state (after (dispatch s ev))
  = step_state (session_state s) (session_canvas s) ev.
Proof. unfold dispatch. cbn [after session_state]. apply handler_queue. Qed.

(** ** What a reachable session looks like *)

(** X1.  After mounting and after every event, the canvas is still mounted
    with its size and layout, its context has alpha 1 and composite
    operation source-over, and its display list is the background followed
    by the painted strokes of the log and then of the active stroke: the
    canvas never lags behind the state. *)
Theorem canvas_always_shows_current_strokes (w h : number) (rect : DOMRect)
        (s : Session) :
  reachable w h rect s ->
  exists c,
    session_canvas s
    = Some (mkCanvas w h rect c
              (background w h
               :: map stroke_paint
                      (filter drawable (held_strokes (session_state s)))))
    /\ globalAlpha c = 1
    /\ globalCompositeOperation c = "source-over".
Proof.
  intros Hr. destruct (reachable_settled w h rect s Hr) as (c & Hcv & Hn).
  exists c. split; [exact Hcv|exact Hn].
Qed.

Lemma canvas_always_shows_current_strokes_witness :
  reachable 800 600 sample_rect dragging_session
  /\ option_map surface (session_canvas dragging_session)
     = Some [background 800 600;
             StrokePath [MoveTo 100 100; LineTo 700 100] "#000000" 5
                        "round" "round" 1 "source-over"].
Proof.
  assert (Hr : reachable 800 600 sample_rect dragging_session)
    by (unfold dragging_session, pressed_session, blank_session;
        repeat apply reach_step; apply reach_mount).
  split; [exact Hr|].
  destruct (canvas_always_shows_current_strokes
              800 600 sample_rect dragging_session Hr) as (c & Hcv & _).
  rewrite Hcv. vm_compute. reflexivity.
Defined.

Lemma In_removelast {A} (a : A) (l : list A) :
  In a (removelast l) -> In a l.
Proof.
  induction l as [|b l IH]; [trivial|].
  destruct l as [|b' l]; [intros []|].
  cbn [removelast]. intros [->|Hin]; [now left|right; now apply IH].
Qed.

(** Where the strokes of the next state come from: they were held before,
    or [startDrawing] just created them, or [draw] extended the active
    stroke by one point. *)
Lemma held_after_step (r : State) (cvo : option Canvas) (ev : Event)
      (st : Stroke) :
  In st (held_strokes (step_state r cvo ev)) ->
  In st (held_strokes r)
  \/ (exists p, st = new_stroke r p)
  \/ (exists cs p,
         isDrawing r = true /\ currentStroke r = Some cs
         /\ st = mkStroke (points cs ++ [p]) (color cs) (width cs) (tool cs)).
Proof.
  assert (Hstart : forall p,
             In st (held_strokes (started_state r p)) ->
             In st (held_strokes r) \/ (exists p', st = new_stroke r p')
             \/ (exists cs p',
                    isDrawing r = true /\ currentStroke r = Some cs
                    /\ st = mkStroke (points cs ++ [p']) (color cs) (width cs)
                                     (tool cs))).
  { intros p. unfold held_strokes. cbn [started_state strokes currentStroke
                                        active_layer].
    rewrite !in_app_iff. intros [Hin|[<-|[]]]; [left; now left|].
    right; left. now exists p. }
  assert (Hdraw : forall p,
             In st (held_strokes (draw_step r p)) ->
             In st (held_strokes r) \/ (exists p', st = new_stroke r p')
             \/ (exists cs p',
                    isDrawing r = true /\ currentStroke r = Some cs
                    /\ st = mkStroke (points cs ++ [p']) (color cs) (width cs)
                                     (tool cs))).
  { intros p. unfold draw_step.
    destruct (isDrawing r) eqn:Hd; [|now left].
    destruct (currentStroke r) as [cs|] eqn:Hc; [|now left].
    unfold held_strokes. cbn [extended_state strokes currentStroke
                              active_layer].
    rewrite !in_app_iff. intros [Hin|[<-|[]]]; [left; now left|].
    right; right. now exists cs, p. }
  assert (Hstop : In st (held_strokes (stop_step r)) ->
                  In st (held_strokes r)).
  { unfold stop_step.
    destruct (isDrawing r) eqn:Hd; [|trivial].
    destruct (currentStroke r) as [cs|] eqn:Hc; [|trivial].
    unfold held_strokes. rewrite Hc.
    cbn [completed_state strokes currentStroke active_layer].
    now rewrite app_nil_r. }
  destruct ev as [e|e|e| |e|e|e| |]; cbn [step_state].
  - apply Hstart.
  - apply Hdraw.
  - intros Hin. left. now apply Hstop.
  - intros Hin. left. now apply Hstop.
  - destruct (touch_target cvo e); [apply Hstart|now left].
  - destruct (touch_target cvo e); [apply Hdraw|now left].
  - intros Hin. left. now apply Hstop.
  - intros [].
  - unfold undo_step. destruct (strokes r) as [|s0 l] eqn:Hs; [now left|].
    unfold held_strokes. cbn [undone_state strokes currentStroke].
    rewrite !in_app_iff, Hs. intros [Hin|Hin]; left; [left|now right].
    now apply In_removelast.
Qed.

Lemma step_state_config (r : State) (cvo : option Canvas) (ev : Event) :
  currentColor (step_state r cvo ev) = currentColor r
  /\ currentWidth (step_state r cvo ev) = currentWidth r
  /\ currentTool (step_state r cvo ev) = currentTool r.
Proof.
  destruct ev; cbn [step_state]; unfold draw_step, stop_step, undo_step;
    try destruct (touch_target cvo e);
    try destruct (isDrawing r); try destruct (currentStroke r);
    try destruct (strokes r); repeat split.
Qed.

(** X2.  The component never calls its setters for colour, width and tool,
    so in every reachable session the configuration is the initial one and
    every stroke of the log, and the active stroke, is a black pen stroke
    of width 5: no event makes this component capture a brush, marker or
    eraser stroke. *)
Theorem reachable_strokes_are_black_pen (w h : number) (rect : DOMRect)
        (s : Session) :
  reachable w h rect s ->
  currentColor (session_state s) = "#000000"
  /\ currentWidth (session_state s) = 5
  /\ currentTool (session_state s) = pen
  /\ forall st, In st (held_strokes (session_state s)) ->
                color st = "#000000" /\ width st = 5 /\ tool st = pen.
Proof.
  induction 1 as [|s ev _ (Hcol & Hwid & Htool & Hall)].
  - rewrite mount_runs. cbn.
    split; [reflexivity|split; [reflexivity|split; [reflexivity|]]].
    intros st [].
  - rewrite state_after_dispatch.
    destruct (step_state_config (session_state s) (session_canvas s) ev)
      as (-> & -> & ->).
    split; [exact Hcol|split; [exact Hwid|split; [exact Htool|]]].
    intros st Hin.
    destruct (held_after_step _ _ _ _ Hin)
      as [Hold|[(p & ->)|(cs & p & _ & Hc & ->)]].
    + now apply Hall.
    + unfold new_stroke. rewrite Hcol, Hwid, Htool. repeat split.
    + cbn [color width tool]. apply Hall. unfold held_strokes.
      rewrite Hc, in_app_iff. right. now left.
Qed.

Lemma reachable_strokes_are_black_pen_witness :
  reachable 800 600 sample_rect pressed_again_session
  /\ currentTool (session_state pressed_again_session) = pen
  /\ forall st, In st (held_strokes (session_state pressed_again_session)) ->
                color st = "#000000" /\ width st = 5 /\ tool st = pen.
Proof.
  assert (Hr : reachable 800 600 sample_rect pressed_again_session)
    by (unfold pressed_again_session, one_stroke_session, dragging_session,
          pressed_session, blank_session;
        repeat apply reach_step; apply reach_mount).
  split; [exact Hr|].
  destruct (reachable_strokes_are_black_pen
              800 600 sample_rect pressed_again_session Hr)
    as (_ & _ & Htool & Hall).
  split; [exact Htool|exact Hall].
Defined.

Lemma step_state_active_drawing (r : State) (cvo : option Canvas)
      (ev : Event) :
  (forall cs, currentStroke r = Some cs -> isDrawing r = true) ->
  forall cs, currentStroke (step_state r cvo ev) = Some cs ->
             isDrawing (step_state r cvo ev) = true.
Proof.
  intros Hinv.
  assert (Hdraw : forall p cs,
             currentStroke (draw_step r p) = Some cs ->
             isDrawing (draw_step r p) = true).
  { intros p cs. unfold draw_step.
    destruct (isDrawing r) eqn:Hd; [destruct (currentStroke r) eqn:Hc|];
      cbv beta iota; intros H.
    - exact Hd.
    - congruence.
    - pose proof (Hinv _ H). congruence. }
  assert (Hstop : forall cs,
             currentStroke (stop_step r) = Some cs ->
             isDrawing (stop_step r) = true).
  { intros cs. unfold stop_step.
    destruct (isDrawing r) eqn:Hd; [destruct (currentStroke r) eqn:Hc|];
      cbv beta iota; intros H.
    - discriminate.
    - congruence.
    - pose proof (Hinv _ H). congruence. }
  destruct ev as [e|e|e| |e|e|e| |]; cbn [step_state]; intros cs;
    try apply Hdraw; try apply Hstop; try reflexivity.
  - destruct (touch_target cvo e); [reflexivity|apply Hinv].
  - destruct (touch_target cvo e); [apply Hdraw|apply Hinv].
  - discriminate.
  - unfold undo_step. destruct (strokes r); apply Hinv.
Qed.

(** X3.  In every reachable session each stroke of the log, and the active
    stroke, has at least one point, and an active stroke exists only while
    the drawing flag is set.  (The flag may stay set without an active
    stroke: clear drops the stroke and leaves the flag.) *)
Theorem reachable_strokes_have_points (w h : number) (rect : DOMRect)
        (s : Session) :
  reachable w h rect s ->
  (forall st, In st (held_strokes (session_state s)) ->
              (1 <= List.length (points st))%nat)
  /\ (forall cs, currentStroke (session_state s) = Some cs ->
                 isDrawing (session_state s) = true).
Proof.
  induction 1 as [|s ev _ (Hpts & Hact)].
  - rewrite mount_runs. cbn. split; [intros st []|discriminate].
  - rewrite state_after_dispatch. split.
    + intros st Hin.
      destruct (held_after_step _ _ _ _ Hin)
        as [Hold|[(p & ->)|(cs & p & _ & Hc & ->)]].
      * now apply Hpts.
      * cbn. lia.
      * cbn [points]. rewrite length_app. cbn. lia.
    + now apply step_state_active_drawing.
Qed.

Lemma reachable_strokes_have_points_witness :
  reachable 800 600 sample_rect dragging_session
  /\ isDrawing (session_state dragging_session) = true.
Proof.
  assert (Hr : reachable 800 600 sample_rect dragging_session)
    by (unfold dragging_session, pressed_session, blank_session;
        repeat apply reach_step; apply reach_mount).
  split; [exact Hr|].
  destruct (reachable_strokes_have_points
              800 600 sample_rect dragging_session Hr) as (_ & Hact).
  apply (Hact (mkStroke [mkPoint 100 100; mkPoint 700 100] "#000000" 5 pen)).
  vm_compute. reflexivity.
Defined.

Lemma step_state_content_flag (r : State) (cvo : option Canvas)
      (ev : Event) :
  (hasContent r = true -> strokes r <> []) ->
  hasContent (step_state r cvo ev) = true ->
  strokes (step_state r cvo ev) <> [].
Proof.
  intros Hinv.
  assert (Hdraw : forall p,
             hasContent (draw_step r p) = true ->
             strokes (draw_step r p) <> []).
  { intros p. unfold draw_step.
    destruct (isDrawing r); [destruct (currentStroke r)|]; exact Hinv. }
  assert (Hstop : hasContent (stop_step r) = true ->
                  strokes (stop_step r) <> []).
  { unfold stop_step.
    destruct (isDrawing r); [destruct (currentStroke r)|]; try exact Hinv.
    intros _. cbn [completed_state strokes].
    intros E. apply app_eq_nil in E. destruct E. discriminate. }
  destruct ev as [e|e|e| |e|e|e| |]; cbn [step_state];
    try apply Hdraw; try apply Hstop; try exact Hinv.
  - destruct (touch_target cvo e); exact Hinv.
  - destruct (touch_target cvo e); [apply Hdraw|exact Hinv].
  - discriminate.
  - unfold undo_step. destruct (strokes r) as [|a [|b l]] eqn:Hs.
    + rewrite Hs. exact Hinv.
    + cbn. rewrite Hs. discriminate.
    + cbn. rewrite Hs. discriminate.
Qed.

(** X4.  In every reachable session the component's content flag is set
    only when the stroke log is non-empty: with an empty log (nothing drawn
    yet, everything undone, or cleared) the flag is false. *)
Theorem content_flag_needs_a_stroke (w h : number) (rect : DOMRect)
        (s : Session) :
  reachable w h rect s ->
  hasContent (session_state s) = true -> strokes (session_state s) <> [].
Proof.
  induction 1 as [|s ev _ IH].
  - rewrite mount_runs. cbn. discriminate.
  - rewrite state_after_dispatch. now apply step_state_content_flag.
Qed.

Lemma content_flag_needs_a_stroke_witness :
  reachable 800 600 sample_rect one_stroke_session
  /\ hasContent (session_state one_stroke_session) = true
  /\ strokes (session_state one_stroke_session) <> [].
Proof.
  assert (Hr : reachable 800 600 sample_rect one_stroke_session)
    by (unfold one_stroke_session, dragging_session, pressed_session,
          blank_session;
        repeat apply reach_step; apply reach_mount).
  assert (Hc : hasContent (session_state one_stroke_session) = true)
    by (vm_compute; reflexivity).
  split; [exact Hr|split; [exact Hc|]].
  exact (content_flag_needs_a_stroke 800 600 sample_rect one_stroke_session
                                     Hr Hc).
Defined.

(** ** How the log changes *)

(** X5.  One event changes the stroke log in one of three ways or not at
    all: a release while a stroke is active appends that stroke at the end,
    undo removes the last entry, clear empties the log.  Entries are never
    modified, reordered or inserted anywhere else. *)
Theorem log_changes_by_append_undo_clear (s : Session) (ev : Event) :
  strokes (session_state (after (dispatch s ev)))
  = strokes (session_state s)
  \/ (exists cs,
         releases ev = true
         /\ isDrawing (session_state s) = true
         /\ currentStroke (session_state s) = Some cs
         /\ strokes (session_state (after (dispatch s ev)))
            = strokes (session_state s) ++ [cs])
  \/ (ev = ClickUndo
      /\ strokes (session_state (after (dispatch s ev)))
         = removelast (strokes (session_state s)))
  \/ (ev = ClickClear
      /\ strokes (session_state (after (dispatch s ev))) = []).
Proof.
  rewrite state_after_dispatch.
  set (r := session_state s). set (cvo := session_canvas s).
  assert (Hdraw : forall p, strokes (draw_step r p) = strokes r).
  { intros p. unfold draw_step.
    destruct (isDrawing r); [destruct (currentStroke r)|]; reflexivity. }
  assert (Hstop : forall ev', releases ev' = true ->
             strokes (stop_step r) = strokes r
             \/ exists cs,
                 releases ev' = true /\ isDrawing r = true
                 /\ currentStroke r = Some cs
                 /\ strokes (stop_step r) = strokes r ++ [cs]).
  { intros ev' Hev'. unfold stop_step.
    destruct (isDrawing r) eqn:Hd; [|now left].
    destruct (currentStroke r) as [cs|] eqn:Hc; [|now left].
    right. exists cs. repeat split; trivial. }
  destruct ev as [e|e|e| |e|e|e| |]; cbn [step_state].
  - now left.
  - left. apply Hdraw.
  - destruct (Hstop (MouseUp e) eq_refl) as [H|H]; [now left|right; now left].
  - destruct (Hstop MouseLeave eq_refl) as [H|H]; [now left|right; now left].
  - left. now destruct (touch_target cvo e).
  - left. destruct (touch_target cvo e); [apply Hdraw|reflexivity].
  - destruct (Hstop (TouchEnd e) eq_refl) as [H|H]; [now left|right; now left].
  - right; right; right. now split.
  - right; right; left. split; [reflexivity|].
    unfold undo_step. destruct (strokes r) eqn:Hs; [exact Hs|].
    cbn [undone_state strokes]. now rewrite Hs.
Qed.

(** ** Moves and releases without an active stroke *)

Lemma dispatch_of_quiet_handler (s : Session) (ev : Event)
      (o : Outcome unit) :
  handler (session_state s) ev (mkEnv [] (session_canvas s) [])
  = (o, mkEnv [] (session_canvas s) []) ->
  dispatch s ev = mkStep s [] (thrown o).
Proof.
  intros Hh. unfold dispatch. rewrite Hh. cbn.
  destruct s, o; reflexivity.
Qed.

Lemma dispatch_passive_idle (s : Session) (ev : Event) :
  passive ev = true ->
  isDrawing (session_state s) = false \/ currentStroke (session_state s) = None ->
  exists err, dispatch s ev = mkStep s [] err.
Proof.
  intros Hev Hidle.
  destruct ev as [e|e|e| |e|e|e| |]; try discriminate;
    try (exists None; now apply dispatch_stop_idle).
  - exists None. apply (dispatch_of_quiet_handler s _ (Returns tt)).
    cbn [handler]. unfold handleMouseMove.
    rewrite (bind_returns _ _ _ _ _ (getMousePos_runs _ _)).
    now apply draw_idle.
  - destruct (touch_target (session_canvas s) e) as [p|] eqn:Ht.
    + exists None. apply (dispatch_of_quiet_handler s _ (Returns tt)).
      cbn [handler]. unfold handleTouchMove, bind.
      rewrite getTouchPos_runs. cbn [canvasRef].
      unfold touch_target in Ht.
      destruct (session_canvas s) as [cv|]; [destruct (touches e)|];
        try discriminate; cbv beta iota; now apply draw_idle.
    + exists (Some TypeError).
      apply (dispatch_of_quiet_handler s _ (Throws TypeError)).
      cbn [handler]. unfold handleTouchMove, bind.
      rewrite getTouchPos_runs. cbn [canvasRef].
      unfold touch_target in Ht.
      destruct (session_canvas s) as [cv|]; [destruct (touches e)|];
        try discriminate; reflexivity.
Qed.

Lemma run_passive_idle (evs : list Event) (s : Session) :
  isDrawing (session_state s) = false \/ currentStroke (session_state s) = None ->
  forallb passive evs = true ->
  run s evs = (s, []).
Proof.
  intros Hidle. induction evs as [|ev evs IH]; [reflexivity|].
  cbn [forallb]. intros Hall. apply andb_prop in Hall as [Hev Hall].
  destruct (dispatch_passive_idle s ev Hev Hidle) as (err & Hd).
  cbn [run]. rewrite Hd. cbn [after outputs]. now rewrite IH.
Qed.

(** X6.  While no stroke is active (the drawing flag is off or there is no
    active stroke), any sequence of move and release events, mouse or
    touch, leaves the whole session as it was, canvas included, and sends
    nothing to the host. *)
Theorem idle_moves_and_releases_ignored (s : Session) (evs : list Event) :
  isDrawing (session_state s) = false \/ currentStroke (session_state s) = None ->
  forallb passive evs = true ->
  run s evs = (s, []).
Proof. intros Hidle Hall. now apply run_passive_idle. Qed.

Lemma idle_moves_and_releases_ignored_witness :
  run one_stroke_session
      [MouseMove (mkMouseEvent 80 90); MouseUp (mkMouseEvent 80 90);
       MouseLeave; TouchMove (mkTouchEvent [mkTouch 1 2]);
       TouchEnd (mkTouchEvent [])]
  = (one_stroke_session, []).
Proof.
  apply idle_moves_and_releases_ignored.
  - left. vm_compute. reflexivity.
  - reflexivity.
Defined.

(** X7.  After a release, and after a clear, the rest of the gesture is
    ignored: further moves and releases change nothing and send nothing,
    until the next press.  So a mouse-leave after a mouse-up does not
    append the stroke a second time, and a clear in the middle of a stroke
    discards the points that follow. *)
Theorem rest_of_gesture_ignored (s : Session) (ev : Event)
        (evs : list Event) :
  releases ev = true \/ ev = ClickClear ->
  forallb passive evs = true ->
  run s (ev :: evs) = run s [ev].
Proof.
  intros Hev Hall. cbn [run].
  rewrite run_passive_idle; [reflexivity| |exact Hall].
  rewrite state_after_dispatch.
  destruct Hev as [Hev| ->].
  - assert (Hs : step_state (session_state s) (session_canvas s) ev
                 = stop_step (session_state s))
      by (destruct ev; try discriminate; reflexivity).
    rewrite Hs. unfold stop_step.
    destruct (isDrawing (session_state s)) eqn:Hd;
      [destruct (currentStroke (session_state s)) eqn:Hc|].
    + left. reflexivity.
    + right. exact Hc.
    + left. exact Hd.
  - right. reflexivity.
Qed.

Lemma rest_of_gesture_ignored_witness :
  run dragging_session
      [MouseUp (mkMouseEvent 360 70); MouseLeave;
       MouseMove (mkMouseEvent 80 90)]
  = run dragging_session [MouseUp (mkMouseEvent 360 70)].
Proof.
  apply rest_of_gesture_ignored.
  - left. reflexivity.
  - reflexivity.
Defined.

(** ** Clear *)

(** X8.  Clear cannot be undone and is idempotent: right after a clear,
    undo changes nothing and sends nothing (the cleared strokes are gone),
    and a second clear produces exactly the step the first one did, the same
    session and the same outputs. *)
Theorem clear_is_final (w h : number) (rect : DOMRect) (s : Session) :
  settled w h rect s ->
  dispatch (after (dispatch s ClickClear)) ClickUndo
  = mkStep (after (dispatch s ClickClear)) [] None
  /\ dispatch (after (dispatch s ClickClear)) ClickClear
     = dispatch s ClickClear.
Proof.
  intros (c & Hcv & Hn). destruct s as [r cvo]. cbn in Hcv. subst cvo.
  rewrite dispatch_clear by assumption. cbn [after]. split.
  - now apply dispatch_undo_empty.
  - unfold redrawn at 1.
    rewrite dispatch_clear
      by (apply pass_ctx_neutral, neutral_assign_fillStyle, Hn).
    destruct c; reflexivity.
Qed.

Lemma clear_is_final_witness :
  settled 800 600 sample_rect pressed_again_session
  /\ strokes
       (session_state
          (after (dispatch (after (dispatch pressed_again_session ClickClear))
                           ClickUndo)))
     = [].
Proof.
  assert (Hs : settled 800 600 sample_rect pressed_again_session)
    by settled_by_evaluation pressed_again_session.
  split; [exact Hs|].
  destruct (clear_is_final 800 600 sample_rect pressed_again_session Hs)
    as (Hundo & _).
  rewrite Hundo. vm_compute. reflexivity.
Defined.

(** ** A session without a canvas *)

Lemma redrawCanvas_unmounted (r : State) q o :
  redrawCanvas r (mkEnv q None o) = (Returns tt, mkEnv q None o).
Proof. reflexivity. Qed.

Lemma handler_unmounted (r : State) (ev : Event) :
  exists q b,
    handler r ev (mkEnv [] None []) = (Returns tt, mkEnv q None b)
    /\ forall d, ~ In (ImageData d) b.
Proof.
  destruct ev as [e|e|e| |e|e|e| |]; cbn [handler];
    unfold handleMouseDown, handleMouseMove, handleMouseUp,
      handleTouchStart, handleTouchMove, handleTouchEnd.
  - rewrite (bind_returns _ _ _ _ _ (getMousePos_runs _ _)).
    rewrite startDrawing_runs. do 2 eexists. split; [reflexivity|].
    intros d [].
  - rewrite (bind_returns _ _ _ _ _ (getMousePos_runs _ _)).
    unfold draw.
    destruct (isDrawing r); [destruct (currentStroke r)|];
      do 2 eexists; (split; [reflexivity|intros d []]).
  - unfold stopDrawing.
    destruct (isDrawing r); [destruct (currentStroke r)|];
      do 2 eexists; (split; [reflexivity|]); intros d; cbn; intuition congruence.
  - unfold stopDrawing.
    destruct (isDrawing r); [destruct (currentStroke r)|];
      do 2 eexists; (split; [reflexivity|]); intros d; cbn; intuition congruence.
  - unfold bind. rewrite getTouchPos_runs. cbn [canvasRef]. cbv beta iota.
    rewrite startDrawing_runs. do 2 eexists. split; [reflexivity|].
    intros d [].
  - unfold bind. rewrite getTouchPos_runs. cbn [canvasRef]. cbv beta iota.
    unfold draw.
    destruct (isDrawing r); [destruct (currentStroke r)|];
      do 2 eexists; (split; [reflexivity|intros d []]).
  - unfold stopDrawing.
    destruct (isDrawing r); [destruct (currentStroke r)|];
      do 2 eexists; (split; [reflexivity|]); intros d; cbn; intuition congruence.
  - rewrite clearCanvas_unmounted. do 2 eexists. split; [reflexivity|].
    intros d. cbn. intuition congruence.
  - unfold undoLastStroke.
    destruct (0 <? List.length (strokes r))%nat;
      do 2 eexists; (split; [reflexivity|]); intros d; cbn; intuition congruence.
Qed.

Lemma dispatch_unmounted (r : State) (ev : Event) :
  error (dispatch (mkSession r None) ev) = None
  /\ session_canvas (after (dispatch (mkSession r None) ev)) = None
  /\ forall d, ~ In (ImageData d) (outputs (dispatch (mkSession r None) ev)).
Proof.
  destruct (handler_unmounted r ev) as (q & b & Hh & Hb).
  unfold dispatch. cbn [session_state session_canvas]. rewrite Hh.
  cbn [fst snd queue canvasRef sent thrown].
  destruct (redraw_due r q).
  - rewrite redrawCanvas_unmounted. cbn. now repeat split.
  - cbn. now repeat split.
Qed.

(** X9.  While no canvas element is behind the ref, no event raises an
    error (a touch event without touch points included: the mapper returns
    the origin before it looks at the touches), the ref stays empty, and no
    image is ever sent to the host; the state transitions happen as usual,
    with every point mapped to the origin. *)
Theorem unmounted_session_sends_no_image (r : State) (evs : list Event) :
  (forall ev, error (dispatch (mkSession r None) ev) = None)
  /\ session_canvas (fst (run (mkSession r None) evs)) = None
  /\ (forall d, ~ In (ImageData d) (snd (run (mkSession r None) evs)))
  /\ (forall e,
         currentStroke
           (session_state (after (dispatch (mkSession r None) (MouseDown e))))
         = Some (new_stroke r (mkPoint 0 0))).
Proof.
  split; [intros ev; apply dispatch_unmounted|].
  split; [|split].
  - revert r. induction evs as [|ev evs IH]; intros r; [reflexivity|].
    cbn [run fst].
    destruct (dispatch_unmounted r ev) as (_ & Hcv & _).
    destruct (after (dispatch (mkSession r None) ev)) as [r' cvo].
    cbn in Hcv. subst cvo. apply IH.
  - revert r. induction evs as [|ev evs IH]; intros r d; [intros []|].
    cbn [run snd]. rewrite in_app_iff.
    destruct (dispatch_unmounted r ev) as (_ & Hcv & Hout).
    destruct (after (dispatch (mkSession r None) ev)) as [r' cvo].
    cbn in Hcv. subst cvo.
    intros [Hin|Hin]; [now apply (Hout d)|now apply (IH r' d)].
  - intros e. rewrite state_after_dispatch. reflexivity.
Qed.

Lemma unmounted_session_sends_no_image_witness :
  error (dispatch (mkSession initial_state None) (TouchStart (mkTouchEvent [])))
  = None
  /\ snd (run (mkSession initial_state None)
              [MouseDown (mkMouseEvent 60 70); MouseMove (mkMouseEvent 80 70);
               MouseUp (mkMouseEvent 80 70); ClickClear])
     = [DrawingChange true; DrawingChange false].
Proof.
  destruct (unmounted_session_sends_no_image
              initial_state
              [MouseDown (mkMouseEvent 60 70); MouseMove (mkMouseEvent 80 70);
               MouseUp (mkMouseEvent 80 70); ClickClear]) as (Herr & _).
  split; [apply Herr|]. vm_compute. reflexivity.
Defined.

(** ** Redrawing twice *)

Lemma fold_step_ctx_fillStyle (l : list Stroke) :
  forall c, fillStyle (fold_left step_ctx l c) = fillStyle c.
Proof.
  induction l as [|s l IH]; intros c; [reflexivity|].
  cbn [fold_left]. rewrite IH. unfold step_ctx.
  now destruct (drawable s).
Qed.

Lemma fold_step_ctx_none (l : list Stroke) :
  forall c, existsb drawable l = false -> fold_left step_ctx l c = c.
Proof.
  induction l as [|s l IH]; intros c; [reflexivity|].
  cbn [existsb fold_left]. intros H. apply orb_false_iff in H as [Hs Hl].
  rewrite (step_ctx_skips c s Hs). now apply IH.
Qed.

Lemma fold_step_ctx_some (l : list Stroke) :
  forall c1 c2,
    fillStyle c1 = fillStyle c2 -> existsb drawable l = true ->
    fold_left step_ctx l c1 = fold_left step_ctx l c2.
Proof.
  induction l as [|s l IH]; intros c1 c2 Hf; [discriminate|].
  cbn [existsb fold_left]. unfold step_ctx at 2 4.
  destruct (drawable s) eqn:Hs.
  - intros _. unfold painted_ctx. now rewrite Hf.
  - cbn [orb]. now apply IH.
Qed.

Lemma pass_ctx_idempotent (c : Context2D) (r : State) :
  pass_ctx (pass_ctx c r) r = pass_ctx c r.
Proof.
  unfold pass_ctx.
  destruct (existsb drawable (strokes r ++ active_layer (currentStroke r)))
    eqn:He.
  - apply fold_step_ctx_some; [reflexivity|exact He].
  - rewrite !fold_step_ctx_none by exact He. now destruct c.
Qed.

(** X10.  Redrawing is idempotent.  A second render pass right after a
    first one leaves the canvas exactly as the first did, context
    attributes and current path included, and sends the host the same image
    again. *)
Theorem redraw_is_idempotent (r : State) q w h b c sf o :
  neutral c ->
  redrawCanvas r (snd (redrawCanvas r (mkEnv q (Some (mkCanvas w h b c sf)) o)))
  = (Returns tt,
     mkEnv q
           (canvasRef
              (snd (redrawCanvas r (mkEnv q (Some (mkCanvas w h b c sf)) o))))
           (sent (snd (redrawCanvas r (mkEnv q (Some (mkCanvas w h b c sf)) o)))
            ++ [ImageData (image w h (strokes r) (currentStroke r))]))
  /\ delivered_image
       (sent (snd (redrawCanvas r (mkEnv q (Some (mkCanvas w h b c sf)) o))))
     = Some (image w h (strokes r) (currentStroke r)).
Proof.
  intros Hn. rewrite (redrawCanvas_runs r q w h b c sf o Hn).
  cbn [snd canvasRef sent]. split.
  - rewrite redrawCanvas_runs by (apply pass_ctx_neutral, Hn).
    now rewrite pass_ctx_idempotent.
  - now apply delivered_image_last.
Qed.

Lemma redraw_is_idempotent_witness :
  neutral (ctx used_canvas)
  /\ canvasRef
       (snd (redrawCanvas
               sample_state
               (snd (redrawCanvas sample_state
                                  (mkEnv [] (Some used_canvas) [])))))
     = canvasRef
         (snd (redrawCanvas sample_state (mkEnv [] (Some used_canvas) []))).
Proof.
  assert (Hn : neutral (ctx used_canvas)) by (split; reflexivity).
  split; [exact Hn|].
  destruct (redraw_is_idempotent
              sample_state [] 800 600 (mkDOMRect 0 0 800 600)
              (ctx used_canvas) (surface used_canvas) [] Hn) as (Hrun & _).
  change used_canvas
    with (mkCanvas 800 600 (mkDOMRect 0 0 800 600) (ctx used_canvas)
                   (surface used_canvas)).
  now rewrite Hrun.
Defined.

(** ** What the host has received *)

(** Apart from clear, a handler itself sends at most one value, a
    content-presence value equal to the content flag it commits. *)
Lemma handler_sent (r : State) (cvo : option Canvas) (ev : Event) :
  ev <> ClickClear ->
  (sent (snd (handler r ev (mkEnv [] cvo []))) = []
   /\ hasContent (step_state r cvo ev) = hasContent r)
  \/ (sent (snd (handler r ev (mkEnv [] cvo [])))
      = [DrawingChange (hasContent (step_state r cvo ev))]).
Proof.
  intros Hev.
  assert (Hdraw : forall p w,
             sent (snd (draw r p w)) = sent w
             /\ hasContent (draw_step r p) = hasContent r).
  { intros p w. unfold draw, draw_step.
    destruct (isDrawing r); [destruct (currentStroke r)|]; now split. }
  assert (Hstop : (sent (snd (stopDrawing r (mkEnv [] cvo []))) = []
                   /\ hasContent (stop_step r) = hasContent r)
                  \/ sent (snd (stopDrawing r (mkEnv [] cvo [])))
                     = [DrawingChange (hasContent (stop_step r))]).
  { unfold stopDrawing, stop_step.
    destruct (isDrawing r); [destruct (currentStroke r)|];
      [right|left|left]; now try split. }
  destruct ev as [e|e|e| |e|e|e| |]; cbn [handler step_state];
    unfold handleMouseDown, handleMouseMove, handleMouseUp,
      handleTouchStart, handleTouchMove, handleTouchEnd;
    try exact Hstop; try congruence.
  - left. rewrite (bind_returns _ _ _ _ _ (getMousePos_runs _ _)).
    now rewrite startDrawing_runs.
  - left. rewrite (bind_returns _ _ _ _ _ (getMousePos_runs _ _)).
    apply Hdraw.
  - left. unfold bind. rewrite getTouchPos_runs. unfold touch_target.
    cbn [canvasRef].
    destruct cvo as [cv|]; [destruct (touches e)|]; cbv beta iota;
      try (now split); now rewrite startDrawing_runs.
  - left. unfold bind. rewrite getTouchPos_runs. unfold touch_target.
    cbn [canvasRef].
    destruct cvo as [cv|]; [destruct (touches e)|]; cbv beta iota;
      try (now split); apply Hdraw.
  - unfold undo_step. destruct (strokes r) eqn:Hs.
    + left. now rewrite undoLastStroke_empty.
    + right. rewrite undoLastStroke_runs by congruence. reflexivity.
Qed.

Lemma dispatch_reports (w h : number) (rect : DOMRect) (s : Session)
      (ev : Event) :
  settled w h rect s ->
  (delivered_image (outputs (dispatch s ev))
   = Some (image w h
                 (strokes (session_state (after (dispatch s ev))))
                 (currentStroke (session_state (after (dispatch s ev)))))
   \/ (delivered_image (outputs (dispatch s ev)) = None
       /\ strokes (session_state (after (dispatch s ev)))
          = strokes (session_state s)
       /\ currentStroke (session_state (after (dispatch s ev)))
          = currentStroke (session_state s)))
  /\ (delivered_presence (outputs (dispatch s ev))
      = Some (hasContent (session_state (after (dispatch s ev))))
      \/ (delivered_presence (outputs (dispatch s ev)) = None
          /\ hasContent (session_state (after (dispatch s ev)))
             = hasContent (session_state s))).
Proof.
  intros (c & Hcv & Hn). destruct s as [r cvo]. cbn in Hcv. subst cvo.
  assert (Hclear : ev = ClickClear \/ ev <> ClickClear)
    by (destruct ev; auto; right; discriminate).
  destruct Hclear as [->|Hev].
  - rewrite dispatch_clear by assumption. split; left; reflexivity.
  - set (cv := mkCanvas w h rect c
                        (rendering w h (strokes r) (currentStroke r))).
    pose proof (handler_sent r (Some cv) ev Hev) as Hsent.
    pose proof (handler_keeps_canvas r ev (mkEnv [] (Some cv) []) Hev) as Hk.
    pose proof (handler_queue r (Some cv) ev) as Hq.
    unfold dispatch. cbn [session_state session_canvas after outputs].
    fold cv. rewrite Hq, Hk. cbn [canvasRef].
    destruct (redraw_due r _) eqn:Hdue.
    + subst cv. rewrite redrawCanvas_runs by assumption.
      cbn [snd sent]. split.
      * left. now apply delivered_image_last.
      * rewrite delivered_presence_app. cbn [delivered_presence fold_left].
        destruct Hsent as [[-> Hh]| ->]; [right; now split|now left].
    + cbn [ret snd sent].
      destruct (commit_without_redraw _ _ Hdue) as [Hs Hc].
      rewrite Hq in Hs, Hc. split.
      * right. split; [|now split].
        destruct Hsent as [[-> _]| ->]; reflexivity.
      * destruct Hsent as [[-> Hh]| ->]; [right; now split|now left].
Qed.

Lemma run_reports (w h : number) (rect : DOMRect) (evs : list Event) :
  forall s,
    settled w h rect s ->
    (forall d,
        delivered_image (snd (run s evs)) = Some d ->
        d = image w h
                  (strokes (session_state (fst (run s evs))))
                  (currentStroke (session_state (fst (run s evs)))))
    /\ (delivered_image (snd (run s evs)) = None ->
        strokes (session_state (fst (run s evs))) = strokes (session_state s)
        /\ currentStroke (session_state (fst (run s evs)))
           = currentStroke (session_state s))
    /\ hasContent (session_state (fst (run s evs)))
       = match delivered_presence (snd (run s evs)) with
         | Some b => b
         | None => hasContent (session_state s)
         end.
Proof.
  induction evs as [|ev evs IH]; intros s Hs.
  - cbn. split; [discriminate|now split].
  - cbn [run fst snd].
    destruct (dispatch_reports w h rect s ev Hs) as (Himg & Hpres).
    destruct (IH _ (dispatch_settled w h rect s ev Hs))
      as (IHimg & IHnone & IHpres).
    rewrite delivered_image_app, delivered_presence_app.
    split; [|split].
    + intros d.
      destruct (delivered_image (snd (run (after (dispatch s ev)) evs)))
        eqn:Hd.
      * intros E. injection E as <-. now apply IHimg.
      * destruct (IHnone eq_refl) as [-> ->].
        destruct Himg as [-> |[-> _]]; [|discriminate].
        intros E. now injection E.
    + destruct (delivered_image (snd (run (after (dispatch s ev)) evs)))
        eqn:Hd; [discriminate|].
      intros Hnone. destruct (IHnone eq_refl) as [-> ->].
      destruct Himg as [Hsome|[_ Hsame]]; [congruence|exact Hsame].
    + rewrite IHpres.
      destruct (delivered_presence (snd (run (after (dispatch s ev)) evs)));
        [reflexivity|].
      destruct Hpres as [-> |[-> Hsame]]; [reflexivity|exact Hsame].
Qed.

(** X11.  The content flag is always the last value the host was told: at
    any moment after mounting, the component's own flag equals the last
    value passed to [onDrawingChange], and is false while nothing has been
    passed yet. *)
Theorem host_flag_tracks_component (w h : number) (rect : DOMRect)
        (evs : list Event) :
  hasContent (session_state (fst (run (after (mount w h rect)) evs)))
  = match delivered_presence
            (outputs (mount w h rect) ++ snd (run (after (mount w h rect)) evs))
    with
    | Some b => b
    | None => false
    end.
Proof.
  destruct (run_reports w h rect evs _ (mount_settled w h rect))
    as (_ & _ & Hflag).
  rewrite Hflag, delivered_presence_app.
  destruct (delivered_presence (snd (run (after (mount w h rect)) evs)));
    [reflexivity|].
  now rewrite mount_runs.
Qed.

(** X12.  The host always holds the current picture: at any moment after
    mounting, the last image passed to [onImageData] is the PNG encoding of
    what the canvas shows, which is the rendering of the current log and
    active stroke. *)
Theorem host_image_tracks_canvas (w h : number) (rect : DOMRect)
        (evs : list Event) :
  delivered_image
    (outputs (mount w h rect) ++ snd (run (after (mount w h rect)) evs))
  = option_map (encode "image/png")
               (session_canvas (fst (run (after (mount w h rect)) evs)))
  /\ delivered_image
       (outputs (mount w h rect) ++ snd (run (after (mount w h rect)) evs))
     = Some (image w h
               (strokes
                  (session_state (fst (run (after (mount w h rect)) evs))))
               (currentStroke
                  (session_state (fst (run (after (mount w h rect)) evs))))).
Proof.
  assert (Hfin : settled w h rect (fst (run (after (mount w h rect)) evs))).
  { generalize (mount_settled w h rect).
    generalize (after (mount w h rect)) as s.
    induction evs as [|ev evs IH]; intros s Hs; [exact Hs|].
    cbn [run fst]. apply IH. now apply dispatch_settled. }
  destruct (run_reports w h rect evs _ (mount_settled w h rect))
    as (Himg & Hnone & _).
  destruct Hfin as (c & Hcv & _). rewrite Hcv.
  cbn [option_map encode canvas_width canvas_height surface].
  fold (image w h
          (strokes (session_state (fst (run (after (mount w h rect)) evs))))
          (currentStroke
             (session_state (fst (run (after (mount w h rect)) evs))))).
  assert (Hlast :
            delivered_image
              (outputs (mount w h rect)
               ++ snd (run (after (mount w h rect)) evs))
            = Some (image w h
                      (strokes
                         (session_state
                            (fst (run (after (mount w h rect)) evs))))
                      (currentStroke
                         (session_state
                            (fst (run (after (mount w h rect)) evs)))))).
  { rewrite delivered_image_app.
    destruct (delivered_image (snd (run (after (mount w h rect)) evs)))
      as [d|] eqn:Hd.
    - now rewrite (Himg d eq_refl).
    - destruct (Hnone eq_refl) as [-> ->]. now rewrite mount_runs. }
  split; exact Hlast.
Qed.

(** ** Errors *)

Lemma handler_outcome (r : State) (cv : Canvas) (ev : Event) :
  fst (handler r ev (mkEnv [] (Some cv) []))
  = if reads_missing_touch ev then Throws TypeError else Returns tt.
Proof.
  destruct ev as [e|e|e| |e|e|e| |];
    cbn [handler reads_missing_touch];
    unfold handleMouseDown, handleMouseMove, handleMouseUp,
      handleTouchStart, handleTouchMove, handleTouchEnd.
  - rewrite (bind_returns _ _ _ _ _ (getMousePos_runs _ _)).
    now rewrite startDrawing_runs.
  - rewrite (bind_returns _ _ _ _ _ (getMousePos_runs _ _)).
    unfold draw.
    destruct (isDrawing r); [destruct (currentStroke r)|]; reflexivity.
  - unfold stopDrawing.
    destruct (isDrawing r); [destruct (currentStroke r)|]; reflexivity.
  - unfold stopDrawing.
    destruct (isDrawing r); [destruct (currentStroke r)|]; reflexivity.
  - unfold bind. rewrite getTouchPos_runs. cbn [canvasRef].
    destruct (touches e); [reflexivity|]. cbv beta iota.
    now rewrite startDrawing_runs.
  - unfold bind. rewrite getTouchPos_runs. cbn [canvasRef].
    destruct (touches e); [reflexivity|]. cbv beta iota. unfold draw.
    destruct (isDrawing r); [destruct (currentStroke r)|]; reflexivity.
  - unfold stopDrawing.
    destruct (isDrawing r); [destruct (currentStroke r)|]; reflexivity.
  - reflexivity.
  - unfold undoLastStroke.
    destruct (0 <? List.length (strokes r))%nat; reflexivity.
Qed.

(** X13.  On a mounted canvas the only events that raise an error are a
    touch-start and a touch-move whose touch list is empty; every other
    event, and the redraw that follows it, returns normally.  (The render
    pass reads [points[0]] only behind its length guard.) *)
Theorem only_missing_touch_raises (w h : number) (rect : DOMRect)
        (s : Session) (ev : Event) :
  settled w h rect s ->
  error (dispatch s ev)
  = if reads_missing_touch ev then Some TypeError else None.
Proof.
  intros (c & Hcv & Hn). destruct s as [r cvo]. cbn in Hcv. subst cvo.
  assert (Hclear : ev = ClickClear \/ ev <> ClickClear)
    by (destruct ev; auto; right; discriminate).
  destruct Hclear as [->|Hev].
  - now rewrite dispatch_clear.
  - unfold dispatch. cbn [session_state session_canvas error].
    rewrite handler_outcome, (handler_keeps_canvas _ _ _ Hev).
    destruct (reads_missing_touch ev); [reflexivity|].
    cbn [thrown canvasRef].
    destruct (redraw_due r _); [|reflexivity].
    now rewrite redrawCanvas_runs.
Qed.

Lemma only_missing_touch_raises_witness :
  settled 800 600 sample_rect dragging_session
  /\ error (dispatch dragging_session (TouchMove (mkTouchEvent [])))
     = Some TypeError
  /\ error (dispatch dragging_session
                     (TouchMove (mkTouchEvent [mkTouch 60 120])))
     = None.
Proof.
  assert (Hs : settled 800 600 sample_rect dragging_session)
    by settled_by_evaluation dragging_session.
  split; [exact Hs|split].
  - exact (only_missing_touch_raises 800 600 sample_rect dragging_session
                                     (TouchMove (mkTouchEvent [])) Hs).
  - exact (only_missing_touch_raises
             800 600 sample_rect dragging_session
             (TouchMove (mkTouchEvent [mkTouch 60 120])) Hs).
Defined.

(** ** Gestures *)

(** X14.  A mouse gesture (press, moves, release) appends one stroke whose
    points are the mapped positions of the press and of the moves, in the
    order the events arrived; the position of the release is not recorded,
    and colour, width and tool are those captured at the press. *)
Theorem gesture_records_points_in_order (w h : number) (rect : DOMRect)
        (s : Session) (down up : MouseEvent) (moves : list MouseEvent) :
  settled w h rect s ->
  strokes (session_state (fst (run s (gesture down moves up))))
  = strokes (session_state s)
    ++ [mkStroke (map (mouse_point w h rect) (down :: moves))
                 match currentTool (session_state s) with
                 | eraser => "#FFFFFF"
                 | _ => currentColor (session_state s)
                 end
                 match currentTool (session_state s) with
                 | eraser => currentWidth (session_state s) * 2
                 | _ => currentWidth (session_state s)
                 end
                 (currentTool (session_state s))]
  /\ currentStroke (session_state (fst (run s (gesture down moves up)))) = None.
Proof.
  intros (c & Hcv & Hn). destruct s as [r cvo]. cbn in Hcv. subst cvo.
  cbn [session_state]. unfold gesture. cbn [run fst].
  assert (Hh : handler r (MouseDown down)
                       (mkEnv [] (Some (mkCanvas w h rect c
                                          (rendering w h (strokes r)
                                                     (currentStroke r)))) [])
               = startDrawing r (mouse_point w h rect down)
                              (mkEnv [] (Some (mkCanvas w h rect c
                                                 (rendering w h (strokes r)
                                                            (currentStroke r))))
                                     []))
    by (cbn [handler]; unfold handleMouseDown;
        now rewrite (bind_returns _ _ _ _ _ (getMousePos_runs _ _))).
  rewrite (dispatch_start r w h rect c _ _ _ Hn Hh).
  cbn [after]. unfold redrawn.
  destruct (run_moves_release
              w h rect moves up
              (started_state r (mouse_point w h rect down))
              (pass_ctx c (started_state r (mouse_point w h rect down)))
              (rendering w h
                 (strokes (started_state r (mouse_point w h rect down)))
                 (currentStroke
                    (started_state r (mouse_point w h rect down))))
              (new_stroke r (mouse_point w h rect down))
              (pass_ctx_neutral c _ Hn) eq_refl eq_refl)
    as (_ & Hlog & Hcur & _).
  split; [|exact Hcur].
  rewrite Hlog. cbn [started_state strokes map].
  now rewrite new_stroke_captures.
Qed.

Lemma gesture_records_points_in_order_witness :
  settled 800 600 sample_rect blank_session
  /\ strokes
       (session_state
          (fst (run blank_session
                    (gesture (mkMouseEvent 60 70)
                             [mkMouseEvent 210 70; mkMouseEvent 360 70]
                             (mkMouseEvent 0 0)))))
     = [mkStroke [mkPoint 100 100; mkPoint 400 100; mkPoint 700 100]
                 "#000000" 5 pen].
Proof.
  assert (Hs : settled 800 600 sample_rect blank_session)
    by settled_by_evaluation blank_session.
  split; [exact Hs|].
  destruct (gesture_records_points_in_order
              800 600 sample_rect blank_session
              (mkMouseEvent 60 70) (mkMouseEvent 0 0)
              [mkMouseEvent 210 70; mkMouseEvent 360 70] Hs) as (Hlog & _).
  rewrite Hlog. vm_compute. reflexivity.
Defined.

(** X15.  Touch input is handled exactly like mouse input at the position
    of the first touch: a touch-start or touch-move with at least one touch
    produces the same step (state, canvas, outputs, no error) as a
    mouse-down or mouse-move there, further touches being ignored, and
    touch-end, mouse-up and mouse-leave all produce the same step. *)
Theorem touch_acts_as_mouse (s : Session) (t : Touch) (rest : list Touch)
        (te : TouchEvent) (me : MouseEvent) :
  dispatch s (TouchStart (mkTouchEvent (t :: rest)))
  = dispatch s (MouseDown (mouse_of_touch t))
  /\ dispatch s (TouchMove (mkTouchEvent (t :: rest)))
     = dispatch s (MouseMove (mouse_of_touch t))
  /\ dispatch s (TouchEnd te) = dispatch s (MouseUp me)
  /\ dispatch s (MouseUp me) = dispatch s MouseLeave.
Proof.
  assert (Hpos : forall env,
             getTouchPos (mkTouchEvent (t :: rest)) env
             = getMousePos (mouse_of_touch t) env).
  { intros env. rewrite getTouchPos_runs, getMousePos_runs.
    cbn [touches]. now destruct (canvasRef env). }
  split; [|split; [|split]].
  - unfold dispatch. cbn [handler]. unfold handleTouchStart, handleMouseDown.
    unfold bind. now rewrite Hpos.
  - unfold dispatch. cbn [handler]. unfold handleTouchMove, handleMouseMove.
    unfold bind. now rewrite Hpos.
  - reflexivity.
  - reflexivity.
Qed.

(** ** The content flag and what the log draws *)

Lemma step_state_flag_off (r : State) (cvo : option Canvas) (ev : Event) :
  (hasContent r = false -> filter drawable (strokes r) = []) ->
  hasContent (step_state r cvo ev) = false ->
  filter drawable (strokes (step_state r cvo ev)) = [].
Proof.
  intros Hinv.
  assert (Hdraw : forall p,
             hasContent (draw_step r p) = false ->
             filter drawable (strokes (draw_step r p)) = []).
  { intros p. unfold draw_step.
    destruct (isDrawing r); [destruct (currentStroke r)|]; exact Hinv. }
  assert (Hstop : hasContent (stop_step r) = false ->
                  filter drawable (strokes (stop_step r)) = []).
  { unfold stop_step.
    destruct (isDrawing r); [destruct (currentStroke r) as [cs|]|];
      try exact Hinv.
    cbn [completed_state hasContent strokes]. intros Hoff.
    apply orb_false_iff in Hoff as [Hlog Hcs].
    destruct (strokes r); [|discriminate].
    cbn [app filter]. unfold drawable. now rewrite Hcs. }
  destruct ev as [e|e|e| |e|e|e| |]; cbn [step_state];
    try apply Hdraw; try apply Hstop; try exact Hinv.
  - destruct (touch_target cvo e); exact Hinv.
  - destruct (touch_target cvo e); [apply Hdraw|exact Hinv].
  - reflexivity.
  - unfold undo_step. destruct (strokes r) as [|a [|b l]] eqn:Hs.
    + rewrite Hs. exact Hinv.
    + intros _. cbn [undone_state strokes]. now rewrite Hs.
    + cbn [undone_state hasContent]. rewrite Hs. discriminate.
Qed.

(** X16.  In every reachable session, while the content flag is false the
    completed strokes draw nothing: no stroke of the log has two or more
    points, so the log alone renders as the blank canvas.  (Only an active
    stroke can be visible while the flag is still false.) *)
Theorem flag_off_means_log_draws_nothing (w h : number) (rect : DOMRect)
        (s : Session) :
  reachable w h rect s ->
  hasContent (session_state s) = false ->
  (forall st, In st (strokes (session_state s)) ->
              (List.length (points st) < 2)%nat)
  /\ rendering w h (strokes (session_state s)) None = [background w h].
Proof.
  intros Hr Hoff.
  assert (Hnone : filter drawable (strokes (session_state s)) = []).
  { revert Hoff. induction Hr as [|s ev _ IH].
    - now rewrite mount_runs.
    - rewrite state_after_dispatch. now apply step_state_flag_off. }
  split.
  - intros st Hin.
    destruct (drawable st) eqn:Hd.
    + assert (Hf : In st (filter drawable (strokes (session_state s))))
        by (apply filter_In; now split).
      rewrite Hnone in Hf. destruct Hf.
    + unfold drawable in Hd. apply Nat.ltb_ge in Hd. lia.
  - unfold rendering. cbn [active_layer]. now rewrite app_nil_r, Hnone.
Qed.

Lemma flag_off_means_log_draws_nothing_witness :
  reachable 800 600 sample_rect pressed_session
  /\ hasContent (session_state pressed_session) = false
  /\ rendering 800 600 (strokes (session_state pressed_session)) None
     = [background 800 600].
Proof.
  assert (Hr : reachable 800 600 sample_rect pressed_session)
    by (unfold pressed_session, blank_session;
        repeat apply reach_step; apply reach_mount).
  assert (Hoff : hasContent (session_state pressed_session) = false)
    by (vm_compute; reflexivity).
  split; [exact Hr|split; [exact Hoff|]].
  destruct (flag_off_means_log_draws_nothing
              800 600 sample_rect pressed_session Hr Hoff) as (_ & Hblank).
  exact Hblank.
Defined.

(** ** Undo during a stroke *)

(** X17.  Undo leaves the stroke in progress alone.  With a stroke active
    and a non-empty log, undo removes the last completed stroke, keeps the
    active stroke and the drawing flag, sends the image of the shorter log
    with the active stroke still on top, and the next release appends the
    active stroke after what is left of the log. *)
Theorem undo_keeps_stroke_in_progress (w h : number) (rect : DOMRect)
        (s : Session) (cs : Stroke) (ev : Event) :
  settled w h rect s ->
  strokes (session_state s) <> [] ->
  isDrawing (session_state s) = true ->
  currentStroke (session_state s) = Some cs ->
  releases ev = true ->
  currentStroke (session_state (after (dispatch s ClickUndo))) = Some cs
  /\ isDrawing (session_state (after (dispatch s ClickUndo))) = true
  /\ delivered_image (outputs (dispatch s ClickUndo))
     = Some (image w h (removelast (strokes (session_state s))) (Some cs))
  /\ strokes
       (session_state (after (dispatch (after (dispatch s ClickUndo)) ev)))
     = removelast (strokes (session_state s)) ++ [cs].
Proof.
  intros (c & Hcv & Hn) Hne Hd Hc Hev.
  destruct s as [r cvo]. cbn in Hcv, Hne, Hd, Hc. subst cvo.
  rewrite dispatch_undo by assumption.
  cbn [after outputs redrawn session_state undone_state currentStroke
       isDrawing].
  rewrite Hc. split; [reflexivity|split; [exact Hd|split; [reflexivity|]]].
  erewrite state_after_release; [reflexivity|exact Hev|exact Hd|exact Hc].
Qed.

Lemma undo_keeps_stroke_in_progress_witness :
  settled 800 600 sample_rect pressed_again_session
  /\ strokes
       (session_state
          (after (dispatch (after (dispatch pressed_again_session ClickUndo))
                           MouseLeave)))
     = [mkStroke [mkPoint 100 200] "#000000" 5 pen].
Proof.
  assert (Hs : settled 800 600 sample_rect pressed_again_session)
    by settled_by_evaluation pressed_again_session.
  split; [exact Hs|].
  assert (Hne : strokes (session_state pressed_again_session) <> [])
    by (vm_compute; discriminate).
  destruct (undo_keeps_stroke_in_progress
              800 600 sample_rect pressed_again_session
              (mkStroke [mkPoint 100 200] "#000000" 5 pen) MouseLeave
              Hs Hne eq_refl eq_refl eq_refl) as (_ & _ & _ & Hlog).
  rewrite Hlog. vm_compute. reflexivity.
Defined.
